(** * oclgrep: the command-line driver (src/main.cpp)

    A shallow embedding of [print_graph] and [main] of oclgrep, the
    GPU-accelerated regex search tool.  The driver validates the locale,
    parses the command line, builds the compute engine, compiles the
    pattern, constructs the match runner, loads and decodes the input file
    and feeds it to the runner in windows of at most [max_chunk_size] code
    points, printing [offset + idx] for every local match [idx].

    Everything the driver calls but does not define (Boost.Locale,
    Boost.Program_options, the regex compiler, the OpenCL engine and runner,
    the file system) is gathered in a record [World]; the driver itself is a
    program in a small trace/exception monad over that record. *)

From Stdlib Require Import ZArith String Ascii Bool Lia Sorted List.
Import ListNotations.
Open Scope Z_scope.

(** ** Machine integers and strings *)

(** [std::size_t] is a 64-bit unsigned integer; every [size_t] computation of
    the source is written with its wrap-around. *)
Definition size_t (z : Z) : Z := z mod 2 ^ 64.

(** [std::uint32_t], the type of [max_chunk_size] and of the automaton's
    words. *)
Definition uint32_max : Z := 2 ^ 32 - 1.

(** [std::u32string]: a sequence of [char32_t] code points. *)
Definition char32_t := Z.
Definition u32string := list char32_t.

Definition size (s : u32string) : Z := Z.of_nat (List.length s).

(** An upper bound of [std::u32string::max_size()]: four bytes per element
    in a 64-bit address space. *)
Definition u32string_max_size : Z := 2 ^ 62.

(** [std::u32string(first, last)] with [first = next(begin, a)] and
    [last = next(begin, b)]: the elements at positions [a .. b-1]. *)
Definition substr (s : u32string) (a b : Z) : u32string :=
  firstn (Z.to_nat (b - a)) (skipn (Z.to_nat a) s).

Definition EXIT_SUCCESS : Z := 0.
Definition EXIT_FAILURE : Z := 1.

(** ** Exceptions *)

(** [user_error] is caught by the first handler of [main], every other
    [std::exception] by the second. *)
Inductive exn : Type :=
| user_error (what : string)
| std_exception (what : string).

(** ** The serialized automaton (namespace [serial]) *)

Module serial.

(** [serial::graph]: node count [n], fan-out [o] and the flat word buffer
    [data]. *)
Record graph : Type := mk_graph { n : Z; o : Z; data : list Z }.

Definition size (g : graph) : Z := Z.of_nat (List.length (data g)).

(** The declarations of common.hpp that [print_graph] uses and that are not
    part of src/: the width of [serial::word] in bytes and the three reserved
    node ids.  They are parameters of the development. *)
Record decl : Type := mk_decl {
  sizeof_word : Z;
  id_begin : Z;
  id_fail : Z;
  id_ok : Z
}.

End serial.

(** ** Standard output of [print_graph] *)

(** One stream insertion: a string literal, an integer, a
    [serial::character], or [std::endl]. *)
Inductive out : Type :=
| Str (s : string)
| Num (z : Z)
| Sym (c : Z)
| Endl.

(** [g.data[a]]; reading outside the buffer has no defined behaviour and is
    [None]. *)
Definition read (g : serial.graph) (a : Z) : option Z :=
  if a <? 0 then None else nth_error (serial.data g) (Z.to_nat a).

(** [for (std::size_t i = i0; i < i0 + count; ++i) body(i)], collecting the
    output of the iterations. *)
Fixpoint for_range (count : nat) (i : Z) (body : Z -> option (list out))
  : option (list out) :=
  match count with
  | O => Some []
  | S count' =>
      match body i with
      | None => None
      | Some a =>
          match for_range count' (i + 1) body with
          | None => None
          | Some b => Some (a ++ b)
          end
      end
  end.

(** The innermost loop of [print_graph] (lines 52-60): the [o] entries of
    the slot that starts at [base_slot]. *)
Definition print_entries (g : serial.graph) (base_slot : Z) : option (list out) :=
  for_range (Z.to_nat (serial.o g)) 0 (fun i_entry =>
    let base_entry := size_t (base_slot + i_entry) in
    match read g base_entry with
    | None => None
    | Some id => Some ((if 0 <? i_entry then [Str ","] else []) ++ [Num id])
    end).

(** The value-slot loop (lines 46-63) of the node whose body starts at
    [base_node_body] and that has [m] slots. *)
Definition print_slots (g : serial.graph) (base_node_body m : Z) : option (list out) :=
  for_range (Z.to_nat m) 0 (fun i_value_slot =>
    let base_value_slot :=
      size_t (base_node_body + size_t (i_value_slot * size_t (1 + serial.o g))) in
    match read g base_value_slot with
    | None => None
    | Some c =>
        let base_slot := size_t (base_value_slot + 1) in
        match print_entries g base_slot with
        | None => None
        | Some entries =>
            Some ([Str "    "; Sym c; Str " => ["] ++ entries ++ [Str "]"; Endl])
        end
    end).

(** The [BEGIN] / [FAIL] / [OK] tag of lines 36-42. *)
Definition print_tag (d : serial.decl) (i_node : Z) : list out :=
  if i_node =? serial.id_begin d then [Str ", BEGIN"]
  else if i_node =? serial.id_fail d then [Str ", FAIL"]
  else if i_node =? serial.id_ok d then [Str ", OK"]
  else [].

(** One iteration of the node loop (lines 33-63). *)
Definition print_node (d : serial.decl) (g : serial.graph) (i_node : Z)
  : option (list out) :=
  match read g i_node with
  | None => None
  | Some base_node =>
      match read g base_node with
      | None => None
      | Some m =>
          let base_node_body := size_t (base_node + 1) in
          match print_slots g base_node_body m with
          | None => None
          | Some slots =>
              Some ([Str "  node"; Num i_node; Str " (m="; Num m]
                    ++ print_tag d i_node ++ [Str "):"; Endl] ++ slots)
          end
      end
  end.

Definition print_header (d : serial.decl) (g : serial.graph) : list out :=
  [Str "Graph (n="; Num (serial.n g); Str ", o="; Num (serial.o g);
   Str ", size="; Num (size_t (serial.sizeof_word d * serial.size g));
   Str "byte):"; Endl].

(** [print_graph] (lines 29-65). *)
Definition print_graph (d : serial.decl) (g : serial.graph) : option (list out) :=
  match for_range (Z.to_nat (serial.n g)) 0 (print_node d g) with
  | None => None
  | Some nodes => Some (print_header d g ++ nodes)
  end.

(** ** Observable events and the driver monad *)

(** What [main] does that is visible outside it, in the order it happens.
    [EvRun] records the loop variable [offset] next to the call
    [runner.run(chunk)] and what the call produced. *)
Inductive event : Type :=
| EvParseArgs (argv : list string)
| EvHelp
| EvEngineNew
| EvNormalize (s : u32string)
| EvCompile (regex_utf32 : u32string)
| EvGraphDump (text : list out)
| EvRunnerNew (max_chunk_size : Z)
| EvReadFile (fname : string)
| EvRun (offset : Z) (chunk : u32string) (result : exn + list Z)
| EvPosition (p : Z)
| EvStderr (line : string).

Definition trace := list event.

(** How a computation ends: with a value, with a C++ exception in flight,
    without having finished within the given number of loop iterations, or
    in undefined behaviour. *)
Inductive outcome (A : Type) : Type :=
| Done (a : A)
| Throw (e : exn)
| Timeout
| Undefined.

Arguments Done {A} a.
Arguments Throw {A} e.
Arguments Timeout {A}.
Arguments Undefined {A}.

Definition M (A : Type) : Type := (trace * outcome A)%type.

Definition ret {A : Type} (a : A) : M A := ([], Done a).

Definition bind {A B : Type} (m : M A) (k : A -> M B) : M B :=
  match m with
  | (t, Done a) => let (t', r) := k a in (t ++ t', r)
  | (t, Throw e) => (t, Throw e)
  | (t, Timeout) => (t, Timeout)
  | (t, Undefined) => (t, Undefined)
  end.

Definition emit (e : event) : M unit := ([e], Done tt).

Definition throw {A : Type} (e : exn) : M A := ([], Throw e).

(** A call that either throws or returns. *)
Definition call {A : Type} (r : exn + A) : M A :=
  match r with
  | inl e => throw e
  | inr a => ret a
  end.

Notation "x <- m ;; k" := (bind m (fun x => k))
  (at level 61, m at next level, right associativity).
Notation "m ;;; k" := (bind m (fun _ => k))
  (at level 61, right associativity).

(** ** The command line *)

(** [po::variables_map] after [po::store]: [vm.count(...)] of the flags and
    the values bound to [regex_utf8], [file] and [max_chunk_size] (the
    default [16 * 1024 * 1024] is the parser's business). *)
Record variables_map : Type := mk_vm {
  vm_regex : string;
  vm_file : string;
  vm_normalize_regex : bool;
  vm_normalize_file : bool;
  vm_print_graph : bool;
  vm_print_profile : bool;
  vm_no_output : bool;
  vm_max_chunk_size : Z;
  vm_help : bool
}.

(** ** The collaborators of [main] *)

Record World : Type := mk_world {
  (** [oclengine] and [oclrunner] objects *)
  engine : Type;
  runner : Type;
  (** common.hpp *)
  consts : serial.decl;
  (** [use_facet<boost::locale::info>(gen("")).utf8()] *)
  locale_utf8 : bool;
  (** [po::store(po::command_line_parser(argc, argv)...run(), vm)];
      [inl] is [e.what()] of the exception it throws *)
  po_store : list string -> string + variables_map;
  (** [po::notify(vm)]; [Some] is [e.what()] of the exception it throws *)
  po_notify : variables_map -> option string;
  (** [std::make_shared<oclengine>()] *)
  oclengine_new : exn + engine;
  (** [boost::locale::conv::utf_to_utf<char32_t>] on UTF-8 bytes *)
  utf_to_utf32 : string -> u32string;
  (** [utf_to_utf<char32_t>(normalize(utf_to_utf<wchar_t>(s), norm_nfkc))] *)
  nfkc : u32string -> exn + u32string;
  (** regex_parser.hpp *)
  string_to_graph : u32string -> exn + serial.graph;
  (** what the constructor of [oclrunner] does with the device *)
  device_upload : engine -> Z -> serial.graph -> bool -> exn + runner;
  (** [oclrunner::run]; the runner object is not const *)
  oclrunner_run : runner -> u32string -> exn + (runner * list Z);
  (** the content of a file, [None] when the stream is not good *)
  fs_read : string -> option string
}.

(** Modelled from the spec: the constructor of the Match Runner
    ([oclrunner::oclrunner], declared in engine.hpp, which is not part of
    src/).  Section 7 of the specification lists "invalid configuration such
    as a zero window size" among the caller-facing errors, "reported as a
    distinct error kind with a human-readable cause"; section 4.4 has the
    constructor upload the automaton to the device.  The cause text is not
    given by the specification. *)
Definition zero_window_cause : string := "max chunk size must not be zero".

Definition oclrunner_new (W : World) (eng : engine W) (max_chunk_size : Z)
  (graph : serial.graph) (print_profile : bool) : exn + runner W :=
  if max_chunk_size =? 0 then inl (user_error zero_window_cause)
  else device_upload W eng max_chunk_size graph print_profile.

(** ** The chunking loop of [main] (lines 162-175) *)

(** [auto result = runner.run(chunk)] at loop variable [offset]. *)
Definition call_run (W : World) (r : runner W) (offset : Z) (chunk : u32string)
  : M (runner W * list Z) :=
  match oclrunner_run W r chunk with
  | inl e => ([EvRun offset chunk (inl e)], Throw e)
  | inr (r', result) => ([EvRun offset chunk (inr result)], Done (r', result))
  end.

(** [for (const auto& idx : result) std::cout << (offset + idx) << std::endl;] *)
Fixpoint print_result (offset : Z) (result : list Z) : M unit :=
  match result with
  | [] => ret tt
  | idx :: rest =>
      emit (EvPosition (size_t (offset + idx))) ;;;
      print_result offset rest
  end.

(** The [for] loop over [offset]; [fuel] bounds the number of evaluations of
    the loop condition.  The iterator range handed to the [std::u32string]
    constructor is only valid when [offset <= end]; the casts to [long] keep
    the value of a position inside the string. *)
Fixpoint chunk_loop (W : World) (fuel : nat) (r : runner W)
  (fcontent_utf32 : u32string) (max_chunk_size : Z) (no_output : bool)
  (offset : Z) : M unit :=
  match fuel with
  | O => ([], Timeout)
  | S fuel' =>
      if offset <? size fcontent_utf32 then
        let end_ := Z.min (size_t (offset + max_chunk_size)) (size fcontent_utf32) in
        if end_ <? offset then ([], Undefined)
        else
          let chunk := substr fcontent_utf32 offset end_ in
          rr <- call_run W r offset chunk ;;
          (if no_output then ret tt else print_result offset (snd rr)) ;;;
          chunk_loop W fuel' (fst rr) fcontent_utf32 max_chunk_size no_output
            (size_t (offset + max_chunk_size))
      else ret tt
  end.

(** ** [readfile] (lines 18-27) *)

Definition readfile (W : World) (fname : string) : M string :=
  emit (EvReadFile fname) ;;;
  match fs_read W fname with
  | None => throw (user_error "file does not exist!")
  | Some content => ret content
  end.

(** ** [main] (lines 67-190) *)

(** The optional NFKC normalization of lines 125-132 and 151-159. *)
Definition normalize_if (W : World) (flag : bool) (s : u32string) : M u32string :=
  if flag then emit (EvNormalize s) ;;; call (nfkc W s) else ret s.

Definition is_empty (s : string) : bool :=
  match s with
  | EmptyString => true
  | String _ _ => false
  end.

(** Lines 69-118: the locale check, [po::store], [--help] and [po::notify].
    The value is [inl 1] for the [return 1] of the help branch and the
    parsed options otherwise. *)
Definition parse_command_line (W : World) (argv : list string) : M (Z + variables_map) :=
  (if locale_utf8 W then ret tt
   else throw (user_error "sorry, this program only works on UTF8 systems")) ;;;
  emit (EvParseArgs argv) ;;;
  vm <- match po_store W argv with
        | inl what => throw (user_error what)
        | inr vm => ret vm
        end ;;
  if vm_help vm then emit EvHelp ;;; ret (inl 1)
  else
    match po_notify W vm with
    | Some what => throw (user_error what)
    | None => ret tt
    end ;;;
    ret (inr vm).

(** Lines 136-138. *)
Definition print_graph_if (W : World) (flag : bool) (graph : serial.graph) : M unit :=
  if flag then
    match print_graph (consts W) graph with
    | None => ([], Undefined)
    | Some text => emit (EvGraphDump text)
    end
  else ret tt.

(** Lines 120-141: the engine, the conversion and compilation of the
    pattern, the optional dump, the runner. *)
Definition build_runner (W : World) (vm : variables_map) : M (runner W) :=
  let regex_utf8 := vm_regex vm in
  let max_chunk_size := vm_max_chunk_size vm in
  emit EvEngineNew ;;;
  eng <- call (oclengine_new W) ;;
  regex_utf32 <- normalize_if W (vm_normalize_regex vm) (utf_to_utf32 W regex_utf8) ;;
  emit (EvCompile regex_utf32) ;;;
  graph <- call (string_to_graph W regex_utf32) ;;
  print_graph_if W (vm_print_graph vm) graph ;;;
  emit (EvRunnerNew max_chunk_size) ;;;
  call (oclrunner_new W eng max_chunk_size graph (vm_print_profile vm)).

(** Lines 143-159: the file, the check for an empty file, the decoding and
    the optional normalization. *)
Definition load_input (W : World) (vm : variables_map) : M u32string :=
  let file := vm_file vm in
  fcontent_utf8 <- readfile W file ;;
  (if is_empty fcontent_utf8
   then throw (user_error "Empty files cannot be processed!")
   else ret tt) ;;;
  normalize_if W (vm_normalize_file vm) (utf_to_utf32 W fcontent_utf8).

(** The body of the [try] block; its value is what [main] returns when no
    exception escapes. *)
Definition main_try (W : World) (fuel : nat) (argv : list string) : M Z :=
  parsed <- parse_command_line W argv ;;
  match parsed with
  | inl code => ret code
  | inr vm =>
      r <- build_runner W vm ;;
      fcontent_utf32 <- load_input W vm ;;
      chunk_loop W fuel r fcontent_utf32 (vm_max_chunk_size vm) (vm_no_output vm) 0 ;;;
      ret EXIT_SUCCESS
  end.

Definition internal_error_report (what : string) : trace :=
  [EvStderr "=========================================================================";
   EvStderr "there was an internal error, please report this as a bug";
   EvStderr "================================= ERROR =================================";
   EvStderr what;
   EvStderr "========================================================================="].

(** The two handlers of lines 176-187: what each writes to [std::cerr]. *)
Definition handle (e : exn) : trace :=
  match e with
  | user_error what => [EvStderr what]
  | std_exception what => internal_error_report what
  end.

(** [main]: the [try] block and its handlers, which both return
    [EXIT_FAILURE]. *)
Definition main (W : World) (fuel : nat) (argv : list string) : M Z :=
  match main_try W fuel argv with
  | (t, Throw e) => (t ++ handle e, Done EXIT_FAILURE)
  | r => r
  end.

(** ** Reading a trace *)

(** The [runner.run] calls of a trace: window offset, window, outcome. *)
Fixpoint run_calls (t : trace) : list (Z * u32string * (exn + list Z)) :=
  match t with
  | [] => []
  | EvRun offset chunk result :: t' => (offset, chunk, result) :: run_calls t'
  | _ :: t' => run_calls t'
  end.

(** The windows handed to [runner.run], with their base offsets. *)
Definition windows (t : trace) : list (Z * u32string) := map fst (run_calls t).

(** The match positions written to standard output. *)
Fixpoint positions (t : trace) : list Z :=
  match t with
  | [] => []
  | EvPosition p :: t' => p :: positions t'
  | _ :: t' => positions t'
  end.

(** A trace without [runner.run] calls and without printed positions. *)
Definition quiet (t : trace) : Prop := run_calls t = [] /\ positions t = [].

(** The positions that the results of the calls stand for: each local index
    of each successful call, plus the base offset of its window. *)
Definition global_positions (calls : list (Z * u32string * (exn + list Z))) : list Z :=
  flat_map (fun c =>
    match c with
    | (offset, _, inr result) => map (fun idx => offset + idx) result
    | (_, _, inl _) => []
    end) calls.

(** Windows that follow one another without gap or overlap from [offset]. *)
Fixpoint consecutive (offset : Z) (ws : list (Z * u32string)) : Prop :=
  match ws with
  | [] => True
  | (off, chunk) :: ws' => off = offset /\ consecutive (offset + size chunk) ws'
  end.

(** [ceiling (a / b)] for positive [b]. *)
Definition ceil_div (a b : Z) : Z := (a + b - 1) / b.

(** Every call of [runner.run] returns. *)
Definition run_returns (W : World) : Prop :=
  forall (r : runner W) (chunk : u32string),
    exists r' result, oclrunner_run W r chunk = inr (r', result).

(** The local indices of a successful call are values of a 32-bit unsigned
    type. *)
Definition result_is_uint32 (c : Z * u32string * (exn + list Z)) : Prop :=
  match c with
  | (_, _, inr result) => Forall (fun idx => 0 <= idx <= uint32_max) result
  | (_, _, inl _) => True
  end.

(** The local indices of a successful call are strictly ascending and lie
    inside the window. *)
Definition result_ascending_in_window (c : Z * u32string * (exn + list Z)) : Prop :=
  match c with
  | (_, chunk, inr result) =>
      StronglySorted Z.lt result /\ Forall (fun idx => 0 <= idx < size chunk) result
  | (_, _, inl _) => True
  end.

(** What one window's result puts on standard output. *)
Definition printed (no_output : bool) (offset : Z) (result : list Z) : trace :=
  if no_output then []
  else map (fun idx => EvPosition (size_t (offset + idx))) result.

(** The shape of every trace of the loop started at [offset]. *)
Inductive loop_trace (text : u32string) (w : Z) (no_output : bool) : Z -> trace -> Prop :=
| loop_stop : forall offset, loop_trace text w no_output offset []
| loop_throw : forall offset e,
    offset < size text ->
    loop_trace text w no_output offset
      [EvRun offset (substr text offset (Z.min (offset + w) (size text))) (inl e)]
| loop_step : forall offset result t,
    offset < size text ->
    loop_trace text w no_output (offset + w) t ->
    loop_trace text w no_output offset
      (EvRun offset (substr text offset (Z.min (offset + w) (size text))) (inr result)
       :: printed no_output offset result ++ t).

(** ** The automaton format as the specification words it *)

(** [storage[a]]. *)
Definition storage (g : serial.graph) (a : Z) : Z :=
  nth (Z.to_nat a) (serial.data g) 0.

(** [base = storage[state_index]]. *)
Definition state_base (g : serial.graph) (i : Z) : Z := storage g i.

(** [m = storage[base]]. *)
Definition state_m (g : serial.graph) (i : Z) : Z := storage g (state_base g i).

(** Slot [k]'s symbol at [storage[base + 1 + k*(1+o)]]. *)
Definition slot_symbol (g : serial.graph) (i k : Z) : Z :=
  storage g (state_base g i + 1 + k * (1 + serial.o g)).

(** Slot [k]'s target [j] at [storage[base + 1 + k*(1+o) + 1 + j]]. *)
Definition slot_target (g : serial.graph) (i k j : Z) : Z :=
  storage g (state_base g i + 1 + k * (1 + serial.o g) + 1 + j).

Inductive reserved : Type := START | REJECT | ACCEPT.

Definition state_mark (d : serial.decl) (i : Z) : option reserved :=
  if i =? serial.id_begin d then Some START
  else if i =? serial.id_fail d then Some REJECT
  else if i =? serial.id_ok d then Some ACCEPT
  else None.

(** What a reader of the dump learns about one state. *)
Record state_view : Type := mk_state_view {
  sv_index : Z;
  sv_m : Z;
  sv_mark : option reserved;
  sv_slots : list (Z * list Z)
}.

(** [0; 1; ...; k-1]. *)
Definition upto (k : Z) : list Z := map Z.of_nat (seq 0 (Z.to_nat k)).

Definition decode_state (d : serial.decl) (g : serial.graph) (i : Z) : state_view :=
  {| sv_index := i;
     sv_m := state_m g i;
     sv_mark := state_mark d i;
     sv_slots :=
       map (fun k => (slot_symbol g i k, map (slot_target g i k) (upto (serial.o g))))
           (upto (state_m g i)) |}.

(** The text of the dump for one state, from its view. *)
Fixpoint show_targets (first : bool) (ids : list Z) : list out :=
  match ids with
  | [] => []
  | id :: ids' => (if first then [] else [Str ","]) ++ [Num id] ++ show_targets false ids'
  end.

Definition show_slot (s : Z * list Z) : list out :=
  [Str "    "; Sym (fst s); Str " => ["] ++ show_targets true (snd s) ++ [Str "]"; Endl].

Definition show_mark (mk : option reserved) : list out :=
  match mk with
  | Some START => [Str ", BEGIN"]
  | Some REJECT => [Str ", FAIL"]
  | Some ACCEPT => [Str ", OK"]
  | None => []
  end.

Definition show_state (v : state_view) : list out :=
  [Str "  node"; Num (sv_index v); Str " (m="; Num (sv_m v)]
  ++ show_mark (sv_mark v) ++ [Str "):"; Endl]
  ++ flat_map show_slot (sv_slots v).

(** The record of state [i] (its [1 + m*(1+o)] words) lies inside the
    buffer, and so does its entry in the offset table. *)
Definition state_in_bounds (g : serial.graph) (i : Z) : bool :=
  (i <? serial.size g)
  && (0 <=? state_base g i)
  && (0 <=? state_m g i)
  && (state_base g i + 1 + state_m g i * (1 + serial.o g) <=? serial.size g).

Definition graph_in_bounds (g : serial.graph) : bool :=
  (0 <=? serial.n g) && (0 <=? serial.o g) && (serial.size g <? 2 ^ 64)
  && forallb (state_in_bounds g) (upto (serial.n g)).

(** ** A concrete environment

    A small world on which the driver can be run: a UTF-8 decoder in the
    manner of Boost.Locale's default ([skip]) conversion, NFKC restricted to
    ASCII and the ligature U+FB01, a compiler that rejects unbalanced groups
    and otherwise builds the automaton of the pattern's first symbol, and a
    runner that reports where that symbol occurs.  It is used for examples
    only; no theorem about [main] depends on it. *)

Fixpoint bytes (s : string) : list Z :=
  match s with
  | EmptyString => []
  | String c s' => Z.of_nat (nat_of_ascii c) :: bytes s'
  end.

Definition is_trail (b : Z) : bool := (128 <=? b) && (b <? 192).

(** [k] continuation bytes after a lead byte; [None] for an illegal or
    incomplete sequence. *)
Fixpoint take_trail (k : nat) (acc : Z) (bs : list Z) : option Z * list Z :=
  match k with
  | O => (Some acc, bs)
  | S k' =>
      match bs with
      | [] => (None, [])
      | b :: rest =>
          if is_trail b then take_trail k' (acc * 64 + b mod 64) rest
          else (None, rest)
      end
  end.

Definition decode_one (lead : Z) (rest : list Z) : option Z * list Z :=
  if lead <? 128 then (Some lead, rest)
  else if lead <? 194 then (None, rest)
  else if lead <? 224 then take_trail 1 (lead mod 32) rest
  else if lead <? 240 then take_trail 2 (lead mod 16) rest
  else if lead <? 245 then take_trail 3 (lead mod 8) rest
  else (None, rest).

Fixpoint utf8_loop (fuel : nat) (bs : list Z) : u32string :=
  match fuel, bs with
  | S fuel', lead :: rest =>
      match decode_one lead rest with
      | (Some c, rest') => c :: utf8_loop fuel' rest'
      | (None, rest') => utf8_loop fuel' rest'
      end
  | _, _ => []
  end.

Definition sample_utf_to_utf32 (s : string) : u32string :=
  utf8_loop (List.length (bytes s)) (bytes s).

Definition sample_nfkc (s : u32string) : exn + u32string :=
  inr (flat_map (fun c => if c =? 64257 then [102; 105] else [c]) s).

(** Are the groups of the pattern balanced? 40 and 41 are the parentheses. *)
Fixpoint balanced (depth : nat) (re : u32string) : bool :=
  match re with
  | [] => Nat.eqb depth 0
  | c :: re' =>
      if c =? 40 then balanced (S depth) re'
      else if c =? 41 then
        match depth with
        | O => false
        | S depth' => balanced depth' re'
        end
      else balanced depth re'
  end.

Definition sample_decl : serial.decl :=
  {| serial.sizeof_word := 4; serial.id_begin := 0; serial.id_fail := 1; serial.id_ok := 2 |}.

(** The automaton of the one-symbol pattern [c]: three states, fan-out 1;
    the start state has the single slot [c => [2]]. *)
Definition literal_graph (c : Z) : serial.graph :=
  serial.mk_graph 3 1 [3; 6; 7; 1; c; 2; 0; 0].

Definition sample_string_to_graph (re : u32string) : exn + serial.graph :=
  if balanced 0 re then inr (literal_graph (hd 0 re))
  else inl (user_error "unbalanced group").

(** The positions of [c] in [chunk], counted from [i]. *)
Fixpoint find_all (c : Z) (chunk : u32string) (i : Z) : list Z :=
  match chunk with
  | [] => []
  | x :: chunk' => (if x =? c then [i] else []) ++ find_all c chunk' (i + 1)
  end.

Definition sample_world (utf8 : bool) (vm : variables_map) (content : string) : World :=
  {| engine := unit;
     runner := Z;
     consts := sample_decl;
     locale_utf8 := utf8;
     po_store := fun _ => inr vm;
     po_notify := fun _ => None;
     oclengine_new := inr tt;
     utf_to_utf32 := sample_utf_to_utf32;
     nfkc := sample_nfkc;
     string_to_graph := sample_string_to_graph;
     device_upload := fun _ _ g _ => inr (nth 4 (serial.data g) 0);
     oclrunner_run := fun c chunk => inr (c, find_all c chunk 0);
     fs_read := fun _ => Some content |}.

(** A command line [oclgrep REGEX FILE] with every flag absent. *)
Definition plain_vm (regex file : string) (max_chunk_size : Z) : variables_map :=
  {| vm_regex := regex; vm_file := file;
     vm_normalize_regex := false; vm_normalize_file := false;
     vm_print_graph := false; vm_print_profile := false; vm_no_output := false;
     vm_max_chunk_size := max_chunk_size; vm_help := false |}.

Definition with_normalize_file (vm : variables_map) : variables_map :=
  {| vm_regex := vm_regex vm; vm_file := vm_file vm;
     vm_normalize_regex := vm_normalize_regex vm; vm_normalize_file := true;
     vm_print_graph := vm_print_graph vm; vm_print_profile := vm_print_profile vm;
     vm_no_output := vm_no_output vm;
     vm_max_chunk_size := vm_max_chunk_size vm; vm_help := vm_help vm |}.

(** The single byte 0xFF, which is not valid UTF-8. *)
Definition byte_ff : string := String (ascii_of_nat 255) EmptyString.

(** The UTF-8 encoding EF AC 81 of the ligature U+FB01. *)
Definition ligature_fi : string :=
  String (ascii_of_nat 239) (String (ascii_of_nat 172) (String (ascii_of_nat 129) EmptyString)).

(** What [main] does once the three stages before the loop have succeeded. *)
Definition after_loop (res : outcome unit) : trace * outcome Z :=
  match res with
  | Done _ => ([], Done EXIT_SUCCESS)
  | Throw e => (handle e, Done EXIT_FAILURE)
  | Timeout => ([], Timeout)
  | Undefined => ([], Undefined)
  end.

(** A run on which the theorems are exercised: [oclgrep a f] with
    [--max-chunk-size 2] on a file that holds [banana]. *)
Definition banana_world : World := sample_world true (plain_vm "a" "f" 2) "banana".
Definition banana_argv : list string := ["oclgrep"; "a"; "f"]%string.
Definition banana_text : u32string := [98; 97; 110; 97; 110; 97].

(** The three reserved ids are pairwise distinct. *)
Definition ids_distinct (d : serial.decl) : Prop :=
  serial.id_begin d <> serial.id_fail d
  /\ serial.id_begin d <> serial.id_ok d
  /\ serial.id_fail d <> serial.id_ok d.

(** ** Further readings of a trace *)

(** The lines written to [std::cerr]. *)
Fixpoint stderr_lines (t : trace) : list string :=
  match t with
  | [] => []
  | EvStderr line :: t' => line :: stderr_lines t'
  | _ :: t' => stderr_lines t'
  end.

(** The files that were opened. *)
Fixpoint files_read (t : trace) : list string :=
  match t with
  | [] => []
  | EvReadFile fname :: t' => fname :: files_read t'
  | _ :: t' => files_read t'
  end.

(** A trace with the printed positions taken out. *)
Fixpoint drop_positions (t : trace) : trace :=
  match t with
  | [] => []
  | EvPosition _ :: t' => drop_positions t'
  | e :: t' => e :: drop_positions t'
  end.

(** A call of [runner.run] that returned. *)
Definition returned (c : Z * u32string * (exn + list Z)) : Prop :=
  match c with
  | (_, _, inr _) => True
  | (_, _, inl _) => False
  end.

(** The [k]-th window of a text cut every [w] code points. *)
Definition nth_window (text : u32string) (w k : Z) : Z * u32string :=
  (k * w, substr text (k * w) (Z.min (k * w + w) (size text))).

(** The number of [std::endl] in a dump, that is, of its lines. *)
Fixpoint count_endl (text : list out) : nat :=
  match text with
  | [] => O
  | Endl :: text' => S (count_endl text')
  | _ :: text' => count_endl text'
  end.

(** The total number of transition slots of the automaton. *)
Definition total_slots (g : serial.graph) : Z :=
  fold_right Z.add 0 (map (state_m g) (upto (serial.n g))).

(** ** Variations of an environment *)

Definition with_command_line (W : World)
  (store : list string -> string + variables_map)
  (notify : variables_map -> option string) : World :=
  {| engine := engine W; runner := runner W; consts := consts W;
     locale_utf8 := locale_utf8 W;
     po_store := store; po_notify := notify;
     oclengine_new := oclengine_new W;
     utf_to_utf32 := utf_to_utf32 W; nfkc := nfkc W;
     string_to_graph := string_to_graph W;
     device_upload := device_upload W;
     oclrunner_run := oclrunner_run W;
     fs_read := fs_read W |}.

Definition with_engine_failure (W : World) (e : exn) : World :=
  {| engine := engine W; runner := runner W; consts := consts W;
     locale_utf8 := locale_utf8 W;
     po_store := po_store W; po_notify := po_notify W;
     oclengine_new := inl e;
     utf_to_utf32 := utf_to_utf32 W; nfkc := nfkc W;
     string_to_graph := string_to_graph W;
     device_upload := device_upload W;
     oclrunner_run := oclrunner_run W;
     fs_read := fs_read W |}.

Definition with_files (W : World) (fs : string -> option string) : World :=
  {| engine := engine W; runner := runner W; consts := consts W;
     locale_utf8 := locale_utf8 W;
     po_store := po_store W; po_notify := po_notify W;
     oclengine_new := oclengine_new W;
     utf_to_utf32 := utf_to_utf32 W; nfkc := nfkc W;
     string_to_graph := string_to_graph W;
     device_upload := device_upload W;
     oclrunner_run := oclrunner_run W;
     fs_read := fs |}.

Definition with_run (W : World)
  (run : runner W -> u32string -> exn + (runner W * list Z)) : World :=
  {| engine := engine W; runner := runner W; consts := consts W;
     locale_utf8 := locale_utf8 W;
     po_store := po_store W; po_notify := po_notify W;
     oclengine_new := oclengine_new W;
     utf_to_utf32 := utf_to_utf32 W; nfkc := nfkc W;
     string_to_graph := string_to_graph W;
     device_upload := device_upload W;
     oclrunner_run := run;
     fs_read := fs_read W |}.

(** [oclgrep --help]: no pattern, no file. *)
Definition help_vm : variables_map :=
  {| vm_regex := EmptyString; vm_file := EmptyString;
     vm_normalize_regex := false; vm_normalize_file := false;
     vm_print_graph := false; vm_print_profile := false; vm_no_output := false;
     vm_max_chunk_size := 16 * 1024 * 1024; vm_help := true |}.

Definition with_normalize_regex (vm : variables_map) : variables_map :=
  {| vm_regex := vm_regex vm; vm_file := vm_file vm;
     vm_normalize_regex := true; vm_normalize_file := vm_normalize_file vm;
     vm_print_graph := vm_print_graph vm; vm_print_profile := vm_print_profile vm;
     vm_no_output := vm_no_output vm;
     vm_max_chunk_size := vm_max_chunk_size vm; vm_help := vm_help vm |}.

(** A runner whose device fails on any window that holds the code point
    [110]. *)
Definition fragile_run (c : Z) (chunk : u32string) : exn + (Z * list Z) :=
  if existsb (Z.eqb 110) chunk then inl (std_exception "device lost")
  else inr (c, find_all c chunk 0).

(** ** Tactics *)

Ltac by_evaluation := vm_compute; repeat split; intros; congruence.

Ltac norm_trace := repeat first [ progress simpl | rewrite <- app_assoc ].

Ltac check_results :=
  repeat first [ progress simpl | split | constructor | lia | by_evaluation ].

(** * Proofs *)

(** ** Arithmetic of [size_t] *)

Lemma size_t_small : forall z, 0 <= z < 2 ^ 64 -> size_t z = z.
Proof. intros z Hz. unfold size_t. apply Z.mod_small. exact Hz. Qed.

Lemma size_nonneg : forall s, 0 <= size s.
Proof. intros s. unfold size. lia. Qed.

(** The loop variable does not wrap: the string is shorter than
    [max_size()] and the step is a 32-bit value. *)
Lemma next_offset_no_wrap : forall L w offset,
  L <= u32string_max_size -> 0 <= w <= uint32_max -> 0 <= offset < L ->
  size_t (offset + w) = offset + w.
Proof.
  intros L w offset HL Hw Ho. apply size_t_small.
  unfold u32string_max_size, uint32_max in *. lia.
Qed.

Lemma ceil_div_step : forall x w, 0 < w -> ceil_div x w = 1 + ceil_div (x - w) w.
Proof.
  intros x w Hw. unfold ceil_div.
  replace (x + w - 1) with (x - w + w - 1 + 1 * w) by lia.
  rewrite Z.div_add by lia. lia.
Qed.

Lemma ceil_div_zero : forall x w, 0 < w -> - w < x <= 0 -> ceil_div x w = 0.
Proof.
  intros x w Hw Hx. unfold ceil_div. apply Z.div_small. lia.
Qed.

Lemma ceil_div_nonneg : forall x w, 0 < w -> - w < x -> 0 <= ceil_div x w.
Proof.
  intros x w Hw Hx. unfold ceil_div. apply Z.div_pos; lia.
Qed.

(** ** The monad *)

Lemma print_result_eq : forall offset result,
  print_result offset result
  = (map (fun idx => EvPosition (size_t (offset + idx))) result, Done tt).
Proof.
  intros offset result. induction result as [|idx rest IH]; simpl.
  - reflexivity.
  - rewrite IH. reflexivity.
Qed.

(** One turn of the loop, when the loop variable does not wrap. *)
Lemma chunk_loop_turn : forall W fuel r text w no offset,
  size text <= u32string_max_size -> 0 <= w <= uint32_max -> 0 <= offset < size text ->
  chunk_loop W (S fuel) r text w no offset
  = (rr <- call_run W r offset (substr text offset (Z.min (offset + w) (size text))) ;;
     (if no then ret tt else print_result offset (snd rr)) ;;;
     chunk_loop W fuel (fst rr) text w no (offset + w)).
Proof.
  intros W fuel r text w no offset HL Hw Ho. simpl.
  rewrite (next_offset_no_wrap _ _ _ HL Hw Ho).
  destruct (offset <? size text) eqn:Hlt; [|apply Z.ltb_ge in Hlt; lia].
  destruct (Z.min (offset + w) (size text) <? offset) eqn:Hend.
  - apply Z.ltb_lt in Hend. lia.
  - reflexivity.
Qed.

Lemma chunk_loop_exit : forall W fuel r text w no offset,
  size text <= offset ->
  chunk_loop W (S fuel) r text w no offset = ret tt.
Proof.
  intros W fuel r text w no offset Ho. simpl.
  destruct (offset <? size text) eqn:Hlt; [apply Z.ltb_lt in Hlt; lia|reflexivity].
Qed.

(** ** The shape of the loop's trace *)

(** A turn whose call returns. *)
Lemma chunk_loop_turn_ok : forall W fuel r text w no offset r' result t' res,
  size text <= u32string_max_size -> 0 <= w <= uint32_max -> 0 <= offset < size text ->
  oclrunner_run W r (substr text offset (Z.min (offset + w) (size text))) = inr (r', result) ->
  chunk_loop W fuel r' text w no (offset + w) = (t', res) ->
  chunk_loop W (S fuel) r text w no offset
  = (EvRun offset (substr text offset (Z.min (offset + w) (size text))) (inr result)
     :: printed no offset result ++ t', res).
Proof.
  intros W fuel r text w no offset r' result t' res HL Hw Ho Hcall Hrest.
  rewrite chunk_loop_turn by assumption.
  unfold call_run. rewrite Hcall. unfold printed.
  destruct no; simpl; try rewrite print_result_eq; simpl; rewrite Hrest;
    destruct res; reflexivity.
Qed.

(** A turn whose call throws. *)
Lemma chunk_loop_turn_throw : forall W fuel r text w no offset e,
  size text <= u32string_max_size -> 0 <= w <= uint32_max -> 0 <= offset < size text ->
  oclrunner_run W r (substr text offset (Z.min (offset + w) (size text))) = inl e ->
  chunk_loop W (S fuel) r text w no offset
  = ([EvRun offset (substr text offset (Z.min (offset + w) (size text))) (inl e)], Throw e).
Proof.
  intros W fuel r text w no offset e HL Hw Ho Hcall.
  rewrite chunk_loop_turn by assumption.
  unfold call_run. rewrite Hcall. reflexivity.
Qed.

(** Every turn is one of the two. *)
Lemma chunk_loop_turn_inv : forall W fuel r text w no offset t res,
  size text <= u32string_max_size -> 0 <= w <= uint32_max -> 0 <= offset < size text ->
  chunk_loop W (S fuel) r text w no offset = (t, res) ->
  let chunk := substr text offset (Z.min (offset + w) (size text)) in
  (exists e, t = [EvRun offset chunk (inl e)] /\ res = Throw e)
  \/ (exists r' result t',
        oclrunner_run W r chunk = inr (r', result)
        /\ chunk_loop W fuel r' text w no (offset + w) = (t', res)
        /\ t = EvRun offset chunk (inr result) :: printed no offset result ++ t').
Proof.
  intros W fuel r text w no offset t res HL Hw Ho Hrun chunk.
  destruct (oclrunner_run W r chunk) as [e|[r' result]] eqn:Hcall.
  - left. exists e.
    rewrite (chunk_loop_turn_throw W fuel r text w no offset e) in Hrun by assumption.
    inversion Hrun; subst. split; reflexivity.
  - right. exists r', result.
    destruct (chunk_loop W fuel r' text w no (offset + w)) as [t' res'] eqn:Hrest.
    rewrite (chunk_loop_turn_ok W fuel r text w no offset r' result t' res')
      in Hrun by assumption.
    inversion Hrun; subst. exists t'. repeat split; reflexivity.
Qed.

Lemma chunk_loop_trace : forall W text w no,
  size text <= u32string_max_size -> 0 <= w <= uint32_max ->
  forall fuel r offset t res,
    0 <= offset ->
    chunk_loop W fuel r text w no offset = (t, res) ->
    loop_trace text w no offset t.
Proof.
  intros W text w no HL Hw fuel.
  induction fuel as [|fuel IH]; intros r offset t res Ho Hrun.
  - simpl in Hrun. inversion Hrun; subst. apply loop_stop.
  - destruct (Z.lt_ge_cases offset (size text)) as [Hlt|Hge].
    + apply chunk_loop_turn_inv in Hrun; [|assumption|assumption|lia].
      destruct Hrun as [[e [Ht _]]|[r' [result [t' [_ [Hrest Ht]]]]]]; subst t.
      * apply loop_throw. assumption.
      * apply loop_step; [assumption|].
        apply (IH r' (offset + w) t' res); [lia|exact Hrest].
    + rewrite chunk_loop_exit in Hrun by lia.
      inversion Hrun; subst. apply loop_stop.
Qed.

(** ** Reading traces *)

Lemma positions_app : forall t1 t2, positions (t1 ++ t2) = positions t1 ++ positions t2.
Proof.
  intros t1 t2. induction t1 as [|e t1 IH]; simpl.
  - reflexivity.
  - destruct e; simpl; rewrite IH; reflexivity.
Qed.

Lemma run_calls_app : forall t1 t2, run_calls (t1 ++ t2) = run_calls t1 ++ run_calls t2.
Proof.
  intros t1 t2. induction t1 as [|e t1 IH]; simpl.
  - reflexivity.
  - destruct e; simpl; rewrite IH; reflexivity.
Qed.

Lemma positions_printed : forall no offset result,
  positions (printed no offset result)
  = if no then [] else map (fun idx => size_t (offset + idx)) result.
Proof.
  intros no offset result. unfold printed. destruct no; [reflexivity|].
  induction result as [|idx rest IH]; simpl; [reflexivity|rewrite IH; reflexivity].
Qed.

Lemma run_calls_printed : forall no offset result, run_calls (printed no offset result) = [].
Proof.
  intros no offset result. unfold printed. destruct no; [reflexivity|].
  induction result as [|idx rest IH]; simpl; [reflexivity|exact IH].
Qed.

Lemma run_calls_step : forall no offset chunk res result t,
  run_calls (EvRun offset chunk res :: printed no offset result ++ t)
  = (offset, chunk, res) :: run_calls t.
Proof.
  intros. simpl. rewrite run_calls_app, run_calls_printed. reflexivity.
Qed.

Lemma positions_step : forall no offset chunk res result t,
  positions (EvRun offset chunk res :: printed no offset result ++ t)
  = (if no then [] else map (fun idx => size_t (offset + idx)) result) ++ positions t.
Proof.
  intros. simpl. rewrite positions_app, positions_printed. reflexivity.
Qed.

(** ** Windows *)

Lemma size_substr : forall text a b,
  0 <= a <= b -> b <= size text -> size (substr text a b) = b - a.
Proof.
  intros text a b Hab Hb. unfold size, substr in *.
  rewrite length_firstn, length_skipn. lia.
Qed.

Lemma substr_skipn : forall text a b,
  0 <= a <= b ->
  substr text a b ++ skipn (Z.to_nat b) text = skipn (Z.to_nat a) text.
Proof.
  intros text a b Hab. unfold substr.
  replace (Z.to_nat b) with (Z.to_nat (b - a) + Z.to_nat a)%nat by lia.
  rewrite <- skipn_skipn. apply firstn_skipn.
Qed.

Lemma skipn_min_size : forall (text : u32string) b,
  0 <= b ->
  skipn (Z.to_nat (Z.min b (size text))) text = skipn (Z.to_nat b) text.
Proof.
  intros text b Hb. destruct (Z.le_gt_cases b (size text)) as [Hle|Hgt].
  - rewrite Z.min_l by assumption. reflexivity.
  - rewrite Z.min_r by lia. unfold size in *.
    rewrite !skipn_all2 by lia. reflexivity.
Qed.

Lemma loop_trace_beyond : forall text w no offset t,
  loop_trace text w no offset t -> size text <= offset -> t = [].
Proof.
  intros text w no offset t Htr Hge. inversion Htr; subst; [reflexivity|lia|lia].
Qed.

Lemma windows_step : forall no offset chunk res result t,
  windows (EvRun offset chunk res :: printed no offset result ++ t)
  = (offset, chunk) :: windows t.
Proof.
  intros. unfold windows. rewrite run_calls_step. reflexivity.
Qed.

(** The windows of a trace of the loop are slices of the text that follow
    one another. *)
Lemma loop_trace_windows : forall text w no,
  0 <= w ->
  forall offset t,
    loop_trace text w no offset t -> 0 <= offset ->
    consecutive offset (windows t)
    /\ Forall (fun oc => 0 <= fst oc < size text
                         /\ snd oc = substr text (fst oc) (Z.min (fst oc + w) (size text)))
              (windows t).
Proof.
  intros text w no Hw offset t Htr.
  induction Htr as [offset|offset e Hlt|offset result t Hlt Htr IH]; intros Ho.
  - split; [exact I|constructor].
  - split.
    + simpl. split; [reflexivity|exact I].
    + constructor; [|constructor]. simpl. split; [lia|reflexivity].
  - rewrite windows_step. destruct IH as [Hcons Hall]; [lia|]. split.
    + simpl. split; [reflexivity|].
      destruct (Z.le_gt_cases (offset + w) (size text)) as [Hfull|Hlast].
      * rewrite size_substr by lia. rewrite Z.min_l by assumption.
        replace (offset + (offset + w - offset)) with (offset + w) by lia.
        exact Hcons.
      * rewrite (loop_trace_beyond _ _ _ _ _ Htr) by lia. exact I.
    + constructor; [|exact Hall]. simpl. split; [lia|reflexivity].
Qed.

(** ** Completed runs of the loop *)

Lemma chunk_loop_done : forall W text w no,
  size text <= u32string_max_size -> 0 < w <= uint32_max ->
  forall fuel r offset t,
    0 <= offset ->
    chunk_loop W fuel r text w no offset = (t, Done tt) ->
    concat (map snd (windows t)) = skipn (Z.to_nat offset) text
    /\ (offset < size text + w ->
        Z.of_nat (List.length (run_calls t)) = ceil_div (size text - offset) w).
Proof.
  intros W text w no HL Hw fuel.
  induction fuel as [|fuel IH]; intros r offset t Ho Hrun.
  - simpl in Hrun. discriminate Hrun.
  - destruct (Z.lt_ge_cases offset (size text)) as [Hlt|Hge].
    + apply chunk_loop_turn_inv in Hrun; [|assumption|lia|lia].
      destruct Hrun as [[e [_ Hres]]|[r' [result [t' [_ [Hrest Ht]]]]]];
        [discriminate Hres|]. subst t.
      apply IH in Hrest; [|lia]. destruct Hrest as [Hcat Hcount].
      rewrite windows_step, run_calls_step. simpl. split.
      * rewrite Hcat. rewrite <- (skipn_min_size text (offset + w)) by lia.
        apply substr_skipn. lia.
      * intros _. rewrite (ceil_div_step (size text - offset) w) by lia.
        replace (size text - offset - w) with (size text - (offset + w)) by lia.
        rewrite <- Hcount by lia. lia.
    + rewrite chunk_loop_exit in Hrun by lia. inversion Hrun; subst. simpl. split.
      * unfold size in Hge. rewrite skipn_all2 by lia. reflexivity.
      * intros Hnear. rewrite ceil_div_zero by lia. reflexivity.
Qed.

(** With calls that return and enough fuel, the loop finishes. *)
Lemma chunk_loop_terminates : forall W text w no,
  run_returns W ->
  size text <= u32string_max_size -> 0 < w <= uint32_max ->
  forall fuel r offset,
    0 <= offset < size text + w ->
    ceil_div (size text - offset) w < Z.of_nat fuel ->
    exists t, chunk_loop W fuel r text w no offset = (t, Done tt).
Proof.
  intros W text w no Hret HL Hw fuel.
  induction fuel as [|fuel IH]; intros r offset Ho Hfuel.
  - pose proof (ceil_div_nonneg (size text - offset) w). lia.
  - destruct (Z.lt_ge_cases offset (size text)) as [Hlt|Hge].
    + destruct (Hret r (substr text offset (Z.min (offset + w) (size text))))
        as [r' [result Hcall]].
      destruct (IH r' (offset + w)) as [t' Hrest]; [lia| |].
      * rewrite (ceil_div_step (size text - offset) w) in Hfuel by lia.
        replace (size text - (offset + w)) with (size text - offset - w) by lia. lia.
      * eexists. apply (chunk_loop_turn_ok W fuel r text w no offset r' result);
          [assumption|lia|lia|exact Hcall|exact Hrest].
    + exists []. apply chunk_loop_exit. assumption.
Qed.

(** ** Reported positions *)

Lemma global_positions_cons : forall offset chunk result calls,
  global_positions ((offset, chunk, inr result) :: calls)
  = map (fun idx => offset + idx) result ++ global_positions calls.
Proof. reflexivity. Qed.

Lemma loop_trace_positions : forall text w no,
  size text <= u32string_max_size -> 0 <= w ->
  forall offset t,
    loop_trace text w no offset t -> 0 <= offset ->
    Forall result_is_uint32 (run_calls t) ->
    positions t = if no then [] else global_positions (run_calls t).
Proof.
  intros text w no HL Hw offset t Htr.
  induction Htr as [offset|offset e Hlt|offset result t Hlt Htr IH]; intros Ho Hres.
  - destruct no; reflexivity.
  - destruct no; reflexivity.
  - rewrite run_calls_step in Hres. inversion Hres as [|c cs Hhead Htail]; subst.
    rewrite positions_step, run_calls_step, global_positions_cons.
    rewrite IH by (assumption || lia).
    destruct no; [reflexivity|]. f_equal.
    apply map_ext_in. intros idx Hin. simpl in Hhead.
    rewrite Forall_forall in Hhead. specialize (Hhead idx Hin).
    apply size_t_small. unfold u32string_max_size, uint32_max in *. lia.
Qed.

(** ** Order of the reported positions *)

Lemma StronglySorted_app : forall (l1 l2 : list Z) bound,
  StronglySorted Z.lt l1 -> StronglySorted Z.lt l2 ->
  Forall (fun p => p < bound) l1 -> Forall (fun p => bound <= p) l2 ->
  StronglySorted Z.lt (l1 ++ l2).
Proof.
  intros l1 l2 bound H1 H2 Hlo Hhi.
  induction H1 as [|a l1 Hs IH Ha]; simpl.
  - exact H2.
  - inversion Hlo as [|x xs Hax Hrest]; subst.
    constructor; [apply IH; assumption|].
    apply Forall_app. split; [exact Ha|].
    rewrite Forall_forall in *. intros p Hp. specialize (Hhi p Hp). lia.
Qed.

Lemma StronglySorted_shift : forall offset (l : list Z),
  StronglySorted Z.lt l -> StronglySorted Z.lt (map (fun idx => offset + idx) l).
Proof.
  intros offset l Hs. induction Hs as [|a l Hs IH Ha]; simpl.
  - constructor.
  - constructor; [exact IH|].
    rewrite Forall_forall in *. intros p Hp.
    apply in_map_iff in Hp. destruct Hp as [idx [Heq Hin]]. subst p.
    specialize (Ha idx Hin). lia.
Qed.

Lemma loop_trace_sorted : forall text w no,
  size text <= u32string_max_size -> 0 <= w ->
  forall offset t,
    loop_trace text w no offset t -> 0 <= offset ->
    Forall result_ascending_in_window (run_calls t) ->
    StronglySorted Z.lt (positions t)
    /\ Forall (fun p => offset <= p < size text) (positions t)
    /\ positions t = (if no then [] else global_positions (run_calls t)).
Proof.
  intros text w no HL Hw offset t Htr.
  induction Htr as [offset|offset e Hlt|offset result t Hlt Htr IH]; intros Ho Hres.
  - repeat split; try constructor. destruct no; reflexivity.
  - repeat split; try constructor. destruct no; reflexivity.
  - rewrite run_calls_step in Hres. inversion Hres as [|c cs Hhead Htail]; subst.
    destruct (IH ltac:(lia) Htail) as [Hsorted [Hlow Heq]].
    assert (Hlow' : Forall (fun p => offset + w <= p) (positions t)).
    { rewrite Forall_forall in *. intros p Hp. specialize (Hlow p Hp). lia. }
    assert (Hrange : Forall (fun p => offset <= p < size text) (positions t)).
    { rewrite Forall_forall in *. intros p Hp. specialize (Hlow p Hp). lia. }
    rewrite positions_step, run_calls_step, global_positions_cons.
    destruct no; simpl.
    + repeat split; assumption.
    + simpl in Hhead. destruct Hhead as [Hasc Hin].
      rewrite size_substr in Hin by lia.
      assert (Hmap : map (fun idx => size_t (offset + idx)) result
                     = map (fun idx => offset + idx) result).
      { apply map_ext_in. intros idx Hidx.
        rewrite Forall_forall in Hin. specialize (Hin idx Hidx).
        apply size_t_small. unfold u32string_max_size in HL. lia. }
      assert (Hfirst : Forall (fun p => offset <= p < Z.min (offset + w) (size text))
                         (map (fun idx => offset + idx) result)).
      { rewrite Forall_forall in *. intros p Hp.
        apply in_map_iff in Hp. destruct Hp as [idx [Hp Hidx]]. subst p.
        specialize (Hin idx Hidx). lia. }
      rewrite Hmap. split; [|split].
      * apply StronglySorted_app with (bound := offset + w);
          [apply StronglySorted_shift; exact Hasc|exact Hsorted| |exact Hlow'].
        rewrite Forall_forall in *. intros p Hp. specialize (Hfirst p Hp). lia.
      * apply Forall_app. split; [|exact Hrange].
        rewrite Forall_forall in *. intros p Hp. specialize (Hfirst p Hp). lia.
      * rewrite Heq. reflexivity.
Qed.

(** ** The stages of [main] *)

Lemma quiet_app : forall t1 t2, quiet t1 -> quiet t2 -> quiet (t1 ++ t2).
Proof.
  intros t1 t2 [Hr1 Hp1] [Hr2 Hp2]. unfold quiet.
  rewrite run_calls_app, positions_app, Hr1, Hp1, Hr2, Hp2. split; reflexivity.
Qed.

Lemma quiet_bind : forall (A B : Type) (m : M A) (k : A -> M B),
  quiet (fst m) -> (forall a, quiet (fst (k a))) -> quiet (fst (bind m k)).
Proof.
  intros A B [t [a|e| |]] k Hm Hk; simpl in *; try exact Hm.
  specialize (Hk a). destruct (k a) as [t' r]. simpl in *.
  apply quiet_app; assumption.
Qed.

(** Only the loop calls the runner and prints positions. *)
Ltac quiet_stage :=
  repeat first
    [ apply quiet_bind; [|intros ?]
    | match goal with
      | |- quiet (fst (match ?x with _ => _ end)) => destruct x
      | |- quiet (fst (if ?x then _ else _)) => destruct x
      end
    | split; reflexivity ].

Lemma normalize_if_quiet : forall W flag s, quiet (fst (normalize_if W flag s)).
Proof. intros W flag s. unfold normalize_if, call. quiet_stage. Qed.

Lemma parse_command_line_quiet : forall W argv, quiet (fst (parse_command_line W argv)).
Proof. intros W argv. unfold parse_command_line. quiet_stage. Qed.

Lemma print_graph_if_quiet : forall W flag g, quiet (fst (print_graph_if W flag g)).
Proof. intros W flag g. unfold print_graph_if. quiet_stage. Qed.

Lemma build_runner_quiet : forall W vm, quiet (fst (build_runner W vm)).
Proof.
  intros W vm. unfold build_runner, call.
  repeat first
    [ apply normalize_if_quiet | apply print_graph_if_quiet
    | apply quiet_bind; [|intros ?]
    | match goal with
      | |- quiet (fst (match ?x with _ => _ end)) => destruct x
      end
    | split; reflexivity ].
Qed.

Lemma load_input_quiet : forall W vm, quiet (fst (load_input W vm)).
Proof.
  intros W vm. unfold load_input, readfile.
  repeat first
    [ apply normalize_if_quiet
    | apply quiet_bind; [|intros ?]
    | match goal with
      | |- quiet (fst (match ?x with _ => _ end)) => destruct x
      | |- quiet (fst (if ?x then _ else _)) => destruct x
      end
    | split; reflexivity ].
Qed.

Lemma handle_quiet : forall e, quiet (handle e).
Proof. intros [what|what]; split; reflexivity. Qed.

Lemma main_with_loop : forall W fuel argv t1 vm t2 r t3 text tl resl,
  parse_command_line W argv = (t1, Done (inr vm)) ->
  build_runner W vm = (t2, Done r) ->
  load_input W vm = (t3, Done text) ->
  chunk_loop W fuel r text (vm_max_chunk_size vm) (vm_no_output vm) 0 = (tl, resl) ->
  main W fuel argv
  = (t1 ++ t2 ++ t3 ++ tl ++ fst (after_loop resl), snd (after_loop resl)).
Proof.
  intros W fuel argv t1 vm t2 r t3 text tl resl Hparse Hbuild Hload Hloop.
  unfold main, main_try. rewrite Hparse. simpl. rewrite Hbuild. simpl.
  rewrite Hload. simpl. rewrite Hloop.
  destruct resl as [[]|e| |]; simpl; rewrite ?app_nil_r, <- ?app_assoc; reflexivity.
Qed.

(** Either the loop is not reached and [main] neither calls the runner nor
    prints a position, or the calls and positions of [main] are those of the
    loop on the loaded text. *)
Lemma main_calls_and_positions : forall W fuel argv,
  quiet (fst (main W fuel argv))
  \/ exists t1 vm t2 r t3 text tl resl,
       parse_command_line W argv = (t1, Done (inr vm))
       /\ build_runner W vm = (t2, Done r)
       /\ load_input W vm = (t3, Done text)
       /\ chunk_loop W fuel r text (vm_max_chunk_size vm) (vm_no_output vm) 0 = (tl, resl)
       /\ run_calls (fst (main W fuel argv)) = run_calls tl
       /\ positions (fst (main W fuel argv)) = positions tl.
Proof.
  intros W fuel argv.
  pose proof (parse_command_line_quiet W argv) as Q1.
  destruct (parse_command_line W argv) as [t1 res1] eqn:Hparse. simpl in Q1.
  destruct res1 as [[code|vm]|e| |];
    try (left; unfold main, main_try; rewrite Hparse; simpl;
         rewrite ?app_nil_r; try apply quiet_app; auto using handle_quiet; fail).
  pose proof (build_runner_quiet W vm) as Q2.
  destruct (build_runner W vm) as [t2 res2] eqn:Hbuild. simpl in Q2.
  destruct res2 as [r|e| |];
    try (left; unfold main, main_try; rewrite Hparse; simpl; rewrite Hbuild; simpl;
         repeat apply quiet_app; auto using handle_quiet; fail).
  pose proof (load_input_quiet W vm) as Q3.
  destruct (load_input W vm) as [t3 res3] eqn:Hload. simpl in Q3.
  destruct res3 as [text|e| |];
    try (left; unfold main, main_try; rewrite Hparse; simpl; rewrite Hbuild; simpl;
         rewrite Hload; simpl;
         repeat apply quiet_app; auto using handle_quiet; fail).
  destruct (chunk_loop W fuel r text (vm_max_chunk_size vm) (vm_no_output vm) 0)
    as [tl resl] eqn:Hloop.
  right. exists t1, vm, t2, r, t3, text, tl, resl.
  rewrite (main_with_loop W fuel argv t1 vm t2 r t3 text tl resl Hparse Hbuild Hload Hloop).
  simpl. destruct Q1 as [R1 P1], Q2 as [R2 P2], Q3 as [R3 P3].
  assert (Qa : quiet (fst (after_loop resl)))
    by (destruct resl as [[]|e| |]; simpl; auto using handle_quiet; split; reflexivity).
  destruct Qa as [Ra Pa].
  rewrite !run_calls_app, !positions_app, R1, R2, R3, P1, P2, P3, Ra, Pa.
  simpl. rewrite !app_nil_r.
  repeat match goal with |- _ /\ _ => split end; first [reflexivity|assumption].
Qed.

(** * The claims *)

Lemma sample_run_returns : forall utf8 vm content,
  run_returns (sample_world utf8 vm content).
Proof. intros utf8 vm content r chunk. eexists. eexists. reflexivity. Qed.

(** ** C1: the loop partitions the text *)

(** C1.  For every decoded text (within the capacity of a [std::u32string])
    and every positive 32-bit [max_chunk_size] [w], when every call of
    [runner.run] returns, the chunking loop of [main] finishes and the
    windows it hands to the runner are consecutive from offset 0 (each
    starts where the previous one ends), each is a non-empty slice of the
    text of at most [w] code points, and their concatenation is the text. *)
Theorem chunk_loop_partitions : forall W fuel (r : runner W) text w no,
  size text <= u32string_max_size ->
  0 < w <= uint32_max ->
  run_returns W ->
  ceil_div (size text) w < Z.of_nat fuel ->
  exists t,
    chunk_loop W fuel r text w no 0 = (t, Done tt)
    /\ consecutive 0 (windows t)
    /\ Forall (fun oc => 0 < size (snd oc) <= w
                         /\ snd oc = substr text (fst oc) (fst oc + size (snd oc)))
              (windows t)
    /\ concat (map snd (windows t)) = text.
Proof.
  intros W fuel r text w no HL Hw Hret Hfuel.
  pose proof (size_nonneg text) as Hsz.
  destruct (chunk_loop_terminates W text w no Hret HL Hw fuel r 0) as [t Hrun].
  - lia.
  - rewrite Z.sub_0_r. exact Hfuel.
  - exists t. split; [exact Hrun|].
    assert (Htr : loop_trace text w no 0 t)
      by (apply (chunk_loop_trace W text w no HL ltac:(lia) fuel r 0 t (Done tt));
          [lia|exact Hrun]).
    destruct (loop_trace_windows text w no ltac:(lia) 0 t Htr ltac:(lia)) as [Hcons Hall].
    split; [exact Hcons|]. split.
    + eapply Forall_impl; [|exact Hall]. intros [off chunk]. simpl.
      intros [Hoff Hchunk]. subst chunk.
      rewrite size_substr by lia. split; [lia|].
      f_equal. lia.
    + destruct (chunk_loop_done W text w no HL Hw fuel r 0 t ltac:(lia) Hrun) as [Hcat _].
      rewrite Hcat. reflexivity.
Qed.

Lemma chunk_loop_partitions_witness :
  exists t,
    chunk_loop (sample_world true (plain_vm "a" "f" 2) "banan") 4 97
      [98; 97; 110; 97; 110] 2 false 0 = (t, Done tt)
    /\ consecutive 0 (windows t)
    /\ Forall (fun oc => 0 < size (snd oc) <= 2
                         /\ snd oc = substr [98; 97; 110; 97; 110] (fst oc)
                                        (fst oc + size (snd oc)))
              (windows t)
    /\ concat (map snd (windows t)) = [98; 97; 110; 97; 110].
Proof.
  apply chunk_loop_partitions.
  - by_evaluation.
  - by_evaluation.
  - apply sample_run_returns.
  - by_evaluation.
Defined.

(** ** C5: the number of calls *)

(** C5.  For every positive 32-bit [w] and every decoded text of length [L],
    when every call of [runner.run] returns, the loop finishes after exactly
    [ceiling (L / w)] calls of [runner.run]; these are at least two calls
    when [w < L]. *)
Theorem chunk_loop_run_count : forall W fuel (r : runner W) text w no,
  size text <= u32string_max_size ->
  0 < w <= uint32_max ->
  run_returns W ->
  ceil_div (size text) w < Z.of_nat fuel ->
  exists t,
    chunk_loop W fuel r text w no 0 = (t, Done tt)
    /\ Z.of_nat (List.length (run_calls t)) = ceil_div (size text) w
    /\ (w < size text -> (1 < List.length (run_calls t))%nat).
Proof.
  intros W fuel r text w no HL Hw Hret Hfuel.
  pose proof (size_nonneg text) as Hsz.
  destruct (chunk_loop_terminates W text w no Hret HL Hw fuel r 0) as [t Hrun].
  - lia.
  - rewrite Z.sub_0_r. exact Hfuel.
  - exists t. split; [exact Hrun|].
    destruct (chunk_loop_done W text w no HL Hw fuel r 0 t ltac:(lia) Hrun) as [_ Hcount].
    rewrite Z.sub_0_r in Hcount. specialize (Hcount ltac:(lia)).
    split; [exact Hcount|].
    intros Hmany.
    assert (2 <= ceil_div (size text) w).
    { unfold ceil_div. apply Z.div_le_lower_bound; lia. }
    lia.
Qed.

Lemma chunk_loop_run_count_witness :
  exists t,
    chunk_loop (sample_world true (plain_vm "a" "f" 2) "banan") 4 97
      [98; 97; 110; 97; 110] 2 false 0 = (t, Done tt)
    /\ Z.of_nat (List.length (run_calls t)) = ceil_div (size [98; 97; 110; 97; 110]) 2
    /\ (2 < size [98; 97; 110; 97; 110] -> (1 < List.length (run_calls t))%nat).
Proof.
  apply chunk_loop_run_count.
  - by_evaluation.
  - by_evaluation.
  - apply sample_run_returns.
  - by_evaluation.
Defined.

(** ** C2: reported positions are global positions *)

Lemma main_with_loop_reads : forall W fuel argv t1 vm t2 r t3 text tl resl,
  parse_command_line W argv = (t1, Done (inr vm)) ->
  build_runner W vm = (t2, Done r) ->
  load_input W vm = (t3, Done text) ->
  chunk_loop W fuel r text (vm_max_chunk_size vm) (vm_no_output vm) 0 = (tl, resl) ->
  run_calls (fst (main W fuel argv)) = run_calls tl
  /\ positions (fst (main W fuel argv)) = positions tl.
Proof.
  intros W fuel argv t1 vm t2 r t3 text tl resl Hparse Hbuild Hload Hloop.
  rewrite (main_with_loop W fuel argv t1 vm t2 r t3 text tl resl Hparse Hbuild Hload Hloop).
  pose proof (parse_command_line_quiet W argv) as [R1 P1]. rewrite Hparse in R1, P1.
  pose proof (build_runner_quiet W vm) as [R2 P2]. rewrite Hbuild in R2, P2.
  pose proof (load_input_quiet W vm) as [R3 P3]. rewrite Hload in R3, P3.
  assert (Qa : quiet (fst (after_loop resl))).
  { destruct resl as [[]|e| |]; simpl; try apply handle_quiet; split; reflexivity. }
  destruct Qa as [Ra Pa]. simpl in *.
  rewrite !run_calls_app, !positions_app, R1, R2, R3, P1, P2, P3, Ra, Pa.
  simpl. rewrite !app_nil_r. split; reflexivity.
Qed.

Lemma in_global_positions : forall calls p,
  In p (global_positions calls) <->
  exists offset chunk result idx,
    In (offset, chunk, inr result) calls /\ In idx result /\ p = offset + idx.
Proof.
  intros calls p. unfold global_positions. rewrite in_flat_map. split.
  - intros [[[offset chunk] [e|result]] [Hc Hp]]; [contradiction|].
    apply in_map_iff in Hp. destruct Hp as [idx [Heq Hidx]].
    exists offset, chunk, result, idx. repeat split; [assumption|assumption|congruence].
  - intros [offset [chunk [result [idx [Hc [Hidx Heq]]]]]].
    exists (offset, chunk, inr result). split; [assumption|].
    apply in_map_iff. exists idx. split; [congruence|assumption].
Qed.

(** C2.  Once [main] has reached the loop with decoded text [text], every
    window handed to [runner.run] is the slice of [text] that begins at the
    recorded base offset, and, the local indices being values of a 32-bit
    unsigned type, the positions that [main] prints are, in order, exactly
    [offset + idx] for every window and every index [idx] that [runner.run]
    returned for it, or nothing at all when [--no-output] is given. *)
Theorem main_reports_global_positions :
  forall W fuel argv t1 vm t2 (r : runner W) t3 text,
  parse_command_line W argv = (t1, Done (inr vm)) ->
  build_runner W vm = (t2, Done r) ->
  load_input W vm = (t3, Done text) ->
  size text <= u32string_max_size ->
  0 <= vm_max_chunk_size vm <= uint32_max ->
  Forall result_is_uint32 (run_calls (fst (main W fuel argv))) ->
  Forall (fun oc => 0 <= fst oc < size text
                    /\ snd oc = substr text (fst oc)
                                  (Z.min (fst oc + vm_max_chunk_size vm) (size text)))
         (windows (fst (main W fuel argv)))
  /\ positions (fst (main W fuel argv))
     = (if vm_no_output vm then []
        else global_positions (run_calls (fst (main W fuel argv))))
  /\ (vm_no_output vm = false ->
      forall offset chunk result idx,
        In (offset, chunk, inr result) (run_calls (fst (main W fuel argv))) ->
        In idx result ->
        In (offset + idx) (positions (fst (main W fuel argv))))
  /\ (forall p,
        In p (positions (fst (main W fuel argv))) ->
        exists offset chunk result idx,
          In (offset, chunk, inr result) (run_calls (fst (main W fuel argv)))
          /\ In idx result /\ p = offset + idx).
Proof.
  intros W fuel argv t1 vm t2 r t3 text Hparse Hbuild Hload HL Hw Hres.
  destruct (chunk_loop W fuel r text (vm_max_chunk_size vm) (vm_no_output vm) 0)
    as [tl resl] eqn:Hloop.
  destruct (main_with_loop_reads W fuel argv t1 vm t2 r t3 text tl resl
              Hparse Hbuild Hload Hloop) as [Hcalls Hpos].
  unfold windows. rewrite Hcalls, Hpos in *.
  assert (Htr : loop_trace text (vm_max_chunk_size vm) (vm_no_output vm) 0 tl)
    by (apply (chunk_loop_trace W text _ _ HL Hw fuel r 0 tl resl); [lia|exact Hloop]).
  assert (Heq : positions tl
                = if vm_no_output vm then [] else global_positions (run_calls tl))
    by (apply (loop_trace_positions text (vm_max_chunk_size vm) (vm_no_output vm)
                 HL ltac:(lia) 0 tl Htr); [lia|exact Hres]).
  split; [|split; [exact Heq|split]].
  - apply (loop_trace_windows text (vm_max_chunk_size vm) (vm_no_output vm)
             ltac:(lia) 0 tl Htr). lia.
  - intros Hno offset chunk result idx Hc Hidx. rewrite Heq, Hno.
    apply in_global_positions. exists offset, chunk, result, idx.
    repeat split; assumption.
  - intros p Hp. rewrite Heq in Hp. destruct (vm_no_output vm); [contradiction|].
    apply in_global_positions. exact Hp.
Qed.

(** ** C7: the printed positions ascend *)

(** C7.  Once [main] has reached the loop, if every call of [runner.run]
    returned its local offsets strictly ascending (they are the elements of
    an ordered set) and each smaller than the length of its window, then the
    sequence of positions printed by [main] is strictly ascending. *)
Theorem main_positions_ascending :
  forall W fuel argv t1 vm t2 (r : runner W) t3 text,
  parse_command_line W argv = (t1, Done (inr vm)) ->
  build_runner W vm = (t2, Done r) ->
  load_input W vm = (t3, Done text) ->
  size text <= u32string_max_size ->
  0 <= vm_max_chunk_size vm <= uint32_max ->
  Forall result_ascending_in_window (run_calls (fst (main W fuel argv))) ->
  StronglySorted Z.lt (positions (fst (main W fuel argv))).
Proof.
  intros W fuel argv t1 vm t2 r t3 text Hparse Hbuild Hload HL Hw Hres.
  destruct (chunk_loop W fuel r text (vm_max_chunk_size vm) (vm_no_output vm) 0)
    as [tl resl] eqn:Hloop.
  destruct (main_with_loop_reads W fuel argv t1 vm t2 r t3 text tl resl
              Hparse Hbuild Hload Hloop) as [Hcalls Hpos].
  rewrite Hcalls in Hres. rewrite Hpos.
  assert (Htr : loop_trace text (vm_max_chunk_size vm) (vm_no_output vm) 0 tl)
    by (apply (chunk_loop_trace W text _ _ HL Hw fuel r 0 tl resl); [lia|exact Hloop]).
  apply (loop_trace_sorted text (vm_max_chunk_size vm) (vm_no_output vm)
           HL ltac:(lia) 0 tl Htr); [lia|exact Hres].
Qed.

(** When the loop is not reached, nothing is printed at all. *)
Lemma main_positions_only_from_loop : forall W fuel argv,
  (forall t1 vm t2 r t3 text,
      parse_command_line W argv = (t1, Done (inr vm)) ->
      build_runner W vm = (t2, Done r) ->
      load_input W vm = (t3, Done text) -> False) ->
  quiet (fst (main W fuel argv)).
Proof.
  intros W fuel argv Hnot.
  destruct (main_calls_and_positions W fuel argv) as [Hq|Hex]; [exact Hq|].
  destruct Hex as [t1 [vm [t2 [r [t3 [text [tl [resl [H1 [H2 [H3 _]]]]]]]]]]].
  exfalso. exact (Hnot t1 vm t2 r t3 text H1 H2 H3).
Qed.

Lemma main_reports_global_positions_witness :
  positions (fst (main banana_world 10 banana_argv))
  = global_positions (run_calls (fst (main banana_world 10 banana_argv))).
Proof.
  refine (proj1 (proj2 (main_reports_global_positions banana_world 10 banana_argv
           [EvParseArgs banana_argv] (plain_vm "a" "f" 2)
           [EvEngineNew; EvCompile [97]; EvRunnerNew 2] 97
           [EvReadFile "f"] banana_text _ _ _ _ _ _))).
  - reflexivity.
  - reflexivity.
  - reflexivity.
  - by_evaluation.
  - by_evaluation.
  - change (Forall result_is_uint32
              [(0, [98; 97], inr [1]); (2, [110; 97], inr [1]); (4, [110; 97], inr [1])]).
    check_results.
Defined.

Lemma main_positions_ascending_witness :
  StronglySorted Z.lt (positions (fst (main banana_world 10 banana_argv))).
Proof.
  apply (main_positions_ascending banana_world 10 banana_argv
           [EvParseArgs banana_argv] (plain_vm "a" "f" 2)
           [EvEngineNew; EvCompile [97]; EvRunnerNew 2] 97
           [EvReadFile "f"] banana_text).
  - reflexivity.
  - reflexivity.
  - reflexivity.
  - by_evaluation.
  - by_evaluation.
  - change (Forall result_ascending_in_window
              [(0, [98; 97], inr [1]); (2, [110; 97], inr [1]); (4, [110; 97], inr [1])]).
    check_results.
Defined.

(** ** C10: the locale check comes first *)

(** C10.  On a system whose locale is not UTF-8, [main] writes the one line
    "sorry, this program only works on UTF8 systems" to [std::cerr] and
    returns [EXIT_FAILURE]; nothing else happens: the command line is not
    parsed, no pattern is compiled and no engine is constructed. *)
Theorem non_utf8_locale_rejected : forall W fuel argv,
  locale_utf8 W = false ->
  main W fuel argv
  = ([EvStderr "sorry, this program only works on UTF8 systems"], Done EXIT_FAILURE).
Proof.
  intros W fuel argv Hlocale.
  unfold main, main_try, parse_command_line. rewrite Hlocale. reflexivity.
Qed.

Lemma non_utf8_locale_rejected_witness :
  main (sample_world false (plain_vm "a" "f" 2) "banana") 10 banana_argv
  = ([EvStderr "sorry, this program only works on UTF8 systems"], Done EXIT_FAILURE).
Proof. apply non_utf8_locale_rejected. reflexivity. Defined.

(** ** C3: an invalid pattern *)

(** C3, as stated, fails.  The engine is constructed (line 121) before the
    pattern is compiled (line 135): on a pattern with an unbalanced group
    the trace of [main] shows [EvEngineNew] ahead of the compilation that
    fails. *)
Lemma invalid_pattern_reaches_engine :
  string_to_graph (sample_world true (plain_vm "(a" "f" 2) "banana")
    (utf_to_utf32 (sample_world true (plain_vm "(a" "f" 2) "banana") "(a")
  = inl (user_error "unbalanced group")
  /\ main (sample_world true (plain_vm "(a" "f" 2) "banana") 10 ["oclgrep"; "(a"; "f"]%string
     = ([EvParseArgs ["oclgrep"; "(a"; "f"]%string; EvEngineNew; EvCompile [40; 97];
         EvStderr "unbalanced group"], Done EXIT_FAILURE)
  /\ In EvEngineNew
       (fst (main (sample_world true (plain_vm "(a" "f" 2) "banana") 10
               ["oclgrep"; "(a"; "f"]%string)).
Proof.
  split; [reflexivity|]. split; [reflexivity|].
  right. left. reflexivity.
Qed.

(** C3 (amended).  For every pattern that the compiler rejects with a
    caller-facing error, once the command line is parsed and the compute
    engine has been constructed (which [main] does first), [main] reports
    the compiler's message on [std::cerr] and returns [EXIT_FAILURE]; the
    trace ends there: no runner is constructed, no file is read and
    [runner.run] is never called. *)
Theorem invalid_pattern_rejected_after_engine :
  forall W fuel argv t1 vm (eng : engine W) tn re msg,
  parse_command_line W argv = (t1, Done (inr vm)) ->
  oclengine_new W = inr eng ->
  normalize_if W (vm_normalize_regex vm) (utf_to_utf32 W (vm_regex vm)) = (tn, Done re) ->
  string_to_graph W re = inl (user_error msg) ->
  main W fuel argv
  = (t1 ++ [EvEngineNew] ++ tn ++ [EvCompile re; EvStderr msg], Done EXIT_FAILURE).
Proof.
  intros W fuel argv t1 vm eng tn re msg Hparse Heng Hnorm Hcompile.
  unfold main, main_try. rewrite Hparse. simpl.
  unfold build_runner. rewrite Heng. simpl. rewrite Hnorm. simpl.
  rewrite Hcompile. norm_trace. reflexivity.
Qed.

Lemma invalid_pattern_rejected_after_engine_witness :
  main (sample_world true (plain_vm "(a" "f" 2) "banana") 10 ["oclgrep"; "(a"; "f"]%string
  = ([EvParseArgs ["oclgrep"; "(a"; "f"]%string] ++ [EvEngineNew] ++ []
     ++ [EvCompile [40; 97]; EvStderr "unbalanced group"], Done EXIT_FAILURE).
Proof.
  apply (invalid_pattern_rejected_after_engine
           (sample_world true (plain_vm "(a" "f" 2) "banana") 10
           ["oclgrep"; "(a"; "f"]%string
           [EvParseArgs ["oclgrep"; "(a"; "f"]%string] (plain_vm "(a" "f" 2) tt).
  - reflexivity.
  - reflexivity.
  - reflexivity.
  - reflexivity.
Defined.

(** ** C4: a zero window size *)

(** C4.  When [max_chunk_size] is zero and everything before the
    construction of the runner has succeeded, the construction fails with a
    caller-facing error that names the cause; [main] writes it to
    [std::cerr] and returns [EXIT_FAILURE]; the file is not read and
    [runner.run] is never called. *)
Theorem zero_window_rejected :
  forall W fuel argv t1 vm (eng : engine W) tn re g tg,
  parse_command_line W argv = (t1, Done (inr vm)) ->
  vm_max_chunk_size vm = 0 ->
  oclengine_new W = inr eng ->
  normalize_if W (vm_normalize_regex vm) (utf_to_utf32 W (vm_regex vm)) = (tn, Done re) ->
  string_to_graph W re = inr g ->
  print_graph_if W (vm_print_graph vm) g = (tg, Done tt) ->
  main W fuel argv
  = (t1 ++ [EvEngineNew] ++ tn ++ [EvCompile re] ++ tg
     ++ [EvRunnerNew 0; EvStderr zero_window_cause], Done EXIT_FAILURE)
  /\ zero_window_cause <> EmptyString
  /\ run_calls (fst (main W fuel argv)) = [].
Proof.
  intros W fuel argv t1 vm eng tn re g tg Hparse Hzero Heng Hnorm Hcompile Hdump.
  assert (Hmain : main W fuel argv
                  = (t1 ++ [EvEngineNew] ++ tn ++ [EvCompile re] ++ tg
                     ++ [EvRunnerNew 0; EvStderr zero_window_cause], Done EXIT_FAILURE)).
  { unfold main, main_try. rewrite Hparse. simpl.
    unfold build_runner. rewrite Heng. simpl. rewrite Hnorm. simpl.
    rewrite Hcompile. simpl. rewrite Hdump. simpl.
    unfold oclrunner_new. rewrite Hzero. norm_trace. reflexivity. }
  split; [exact Hmain|]. split; [discriminate|].
  rewrite Hmain. simpl.
  pose proof (parse_command_line_quiet W argv) as [R1 _]. rewrite Hparse in R1.
  pose proof (normalize_if_quiet W (vm_normalize_regex vm) (utf_to_utf32 W (vm_regex vm)))
    as [Rn _]. rewrite Hnorm in Rn.
  pose proof (print_graph_if_quiet W (vm_print_graph vm) g) as [Rg _]. rewrite Hdump in Rg.
  simpl in *. rewrite !run_calls_app. simpl. rewrite !run_calls_app.
  rewrite R1, Rn; simpl; rewrite !run_calls_app, Rg; reflexivity.
Qed.

Lemma zero_window_rejected_witness :
  main (sample_world true (plain_vm "a" "f" 0) "banana") 10 banana_argv
  = ([EvParseArgs banana_argv] ++ [EvEngineNew] ++ [] ++ [EvCompile [97]] ++ []
     ++ [EvRunnerNew 0; EvStderr zero_window_cause], Done EXIT_FAILURE).
Proof.
  apply (zero_window_rejected (sample_world true (plain_vm "a" "f" 0) "banana") 10
           banana_argv [EvParseArgs banana_argv] (plain_vm "a" "f" 0) tt [] [97]
           (literal_graph 97) []).
  - reflexivity.
  - reflexivity.
  - reflexivity.
  - reflexivity.
  - reflexivity.
  - reflexivity.
Defined.

(** [main] itself has no check of the window size: were a runner to be
    constructed with a zero window, the loop over a non-empty text would
    call it on the empty window at offset 0 again and again. *)
Lemma chunk_loop_zero_window_never_ends : forall W,
  run_returns W ->
  forall fuel (r : runner W) text no,
    0 < size text <= u32string_max_size ->
    snd (chunk_loop W fuel r text 0 no 0) = Timeout.
Proof.
  intros W Hret fuel.
  induction fuel as [|fuel IH]; intros r text no Hsz.
  - reflexivity.
  - destruct (Hret r (substr text 0 (Z.min (0 + 0) (size text)))) as [r' [result Hcall]].
    destruct (chunk_loop W fuel r' text 0 no (0 + 0)) as [t' res'] eqn:Hrest.
    rewrite (chunk_loop_turn_ok W fuel r text 0 no 0 r' result t' res');
      [|lia|unfold uint32_max; lia|lia|exact Hcall|exact Hrest].
    simpl. specialize (IH r' text no Hsz). simpl in Hrest.
    rewrite Hrest in IH. exact IH.
Qed.

(** ** C8: empty input *)

(** C8, as stated, fails.  The check of line 145 looks at the bytes of the
    file, not at the decoded text: a file that holds the single byte 0xFF is
    not empty, decodes to no code point at all, and [main] returns
    [EXIT_SUCCESS] without a word on [std::cerr]. *)
Lemma undecodable_file_not_rejected :
  utf_to_utf32 (sample_world true (plain_vm "a" "f" 2) byte_ff) byte_ff = []
  /\ main (sample_world true (plain_vm "a" "f" 2) byte_ff) 10 banana_argv
     = ([EvParseArgs banana_argv; EvEngineNew; EvCompile [97]; EvRunnerNew 2;
         EvReadFile "f"], Done EXIT_SUCCESS).
Proof. split; reflexivity. Qed.

(** C8 (amended).  For every input file whose content is empty before it is
    decoded (a file of zero bytes), once the runner has been constructed,
    [main] fails with the caller-facing error "Empty files cannot be
    processed!", returns [EXIT_FAILURE] and never calls [runner.run]. *)
Theorem empty_file_rejected :
  forall W fuel argv t1 vm t2 (r : runner W),
  parse_command_line W argv = (t1, Done (inr vm)) ->
  build_runner W vm = (t2, Done r) ->
  fs_read W (vm_file vm) = Some EmptyString ->
  main W fuel argv
  = (t1 ++ t2 ++ [EvReadFile (vm_file vm); EvStderr "Empty files cannot be processed!"],
     Done EXIT_FAILURE)
  /\ run_calls (fst (main W fuel argv)) = [].
Proof.
  intros W fuel argv t1 vm t2 r Hparse Hbuild Hread.
  assert (Hmain : main W fuel argv
                  = (t1 ++ t2 ++ [EvReadFile (vm_file vm);
                                  EvStderr "Empty files cannot be processed!"],
                     Done EXIT_FAILURE)).
  { unfold main, main_try. rewrite Hparse. simpl. rewrite Hbuild. simpl.
    unfold load_input, readfile. rewrite Hread. norm_trace. reflexivity. }
  split; [exact Hmain|]. rewrite Hmain. simpl.
  pose proof (parse_command_line_quiet W argv) as [R1 _]. rewrite Hparse in R1.
  pose proof (build_runner_quiet W vm) as [R2 _]. rewrite Hbuild in R2.
  simpl in *. rewrite !run_calls_app, R1, R2. reflexivity.
Qed.

Lemma empty_file_rejected_witness :
  main (sample_world true (plain_vm "a" "f" 2) "") 10 banana_argv
  = ([EvParseArgs banana_argv] ++ [EvEngineNew; EvCompile [97]; EvRunnerNew 2]
     ++ [EvReadFile "f"; EvStderr "Empty files cannot be processed!"],
     Done EXIT_FAILURE).
Proof.
  apply (empty_file_rejected (sample_world true (plain_vm "a" "f" 2) "") 10 banana_argv
           [EvParseArgs banana_argv] (plain_vm "a" "f" 2)
           [EvEngineNew; EvCompile [97]; EvRunnerNew 2] 97).
  - reflexivity.
  - reflexivity.
  - reflexivity.
Defined.

(** A text that is empty after decoding never reaches the runner: the loop
    condition fails at once and [main] returns [EXIT_SUCCESS]. *)
Lemma empty_text_never_run : forall W fuel argv t1 vm t2 (r : runner W) t3,
  parse_command_line W argv = (t1, Done (inr vm)) ->
  build_runner W vm = (t2, Done r) ->
  load_input W vm = (t3, Done []) ->
  main W (S fuel) argv = (t1 ++ t2 ++ t3, Done EXIT_SUCCESS)
  /\ run_calls (fst (main W (S fuel) argv)) = [].
Proof.
  intros W fuel argv t1 vm t2 r t3 Hparse Hbuild Hload.
  assert (Hloop : chunk_loop W (S fuel) r [] (vm_max_chunk_size vm) (vm_no_output vm) 0
                  = ([], Done tt)) by reflexivity.
  destruct (main_with_loop_reads W (S fuel) argv t1 vm t2 r t3 [] [] (Done tt)
              Hparse Hbuild Hload Hloop) as [Hcalls _].
  split; [|exact Hcalls].
  rewrite (main_with_loop W (S fuel) argv t1 vm t2 r t3 [] [] (Done tt)
             Hparse Hbuild Hload Hloop).
  simpl. rewrite !app_nil_r. reflexivity.
Qed.

(** ** C9: positions after normalization *)

Lemma load_input_normalized : forall W vm content text,
  vm_normalize_file vm = true ->
  fs_read W (vm_file vm) = Some content ->
  is_empty content = false ->
  nfkc W (utf_to_utf32 W content) = inr text ->
  load_input W vm
  = ([EvReadFile (vm_file vm); EvNormalize (utf_to_utf32 W content)], Done text).
Proof.
  intros W vm content text Hflag Hread Hnonempty Hnfkc.
  unfold load_input, readfile, normalize_if.
  rewrite Hread, Hflag. simpl. rewrite Hnonempty. simpl. rewrite Hnfkc. reflexivity.
Qed.

(** C9.  With [--normalize-file], once the runner is constructed and the
    file is read, the text handed to the loop is the NFKC normalization
    [text] of the decoded file: every window is a slice of [text] at its base
    offset, the windows of a run that completes concatenate to [text], and,
    the local offsets of every call lying strictly ascending inside its
    window, every printed position is [offset + idx] for a window of [text]
    and is a position of [text]. *)
Theorem normalized_text_is_matched :
  forall W fuel argv t1 vm t2 (r : runner W) content text,
  parse_command_line W argv = (t1, Done (inr vm)) ->
  build_runner W vm = (t2, Done r) ->
  vm_normalize_file vm = true ->
  fs_read W (vm_file vm) = Some content ->
  is_empty content = false ->
  nfkc W (utf_to_utf32 W content) = inr text ->
  size text <= u32string_max_size ->
  0 < vm_max_chunk_size vm <= uint32_max ->
  Forall result_ascending_in_window (run_calls (fst (main W fuel argv))) ->
  In (EvNormalize (utf_to_utf32 W content)) (fst (main W fuel argv))
  /\ Forall (fun oc => 0 <= fst oc < size text
                       /\ snd oc = substr text (fst oc)
                                     (Z.min (fst oc + vm_max_chunk_size vm) (size text)))
            (windows (fst (main W fuel argv)))
  /\ (snd (main W fuel argv) = Done EXIT_SUCCESS ->
      concat (map snd (windows (fst (main W fuel argv)))) = text)
  /\ positions (fst (main W fuel argv))
     = (if vm_no_output vm then []
        else global_positions (run_calls (fst (main W fuel argv))))
  /\ Forall (fun p => 0 <= p < size text) (positions (fst (main W fuel argv))).
Proof.
  intros W fuel argv t1 vm t2 r content text
         Hparse Hbuild Hflag Hread Hnonempty Hnfkc HL Hw Hres.
  pose proof (load_input_normalized W vm content text Hflag Hread Hnonempty Hnfkc)
    as Hload.
  destruct (chunk_loop W fuel r text (vm_max_chunk_size vm) (vm_no_output vm) 0)
    as [tl resl] eqn:Hloop.
  destruct (main_with_loop_reads W fuel argv t1 vm t2 r _ text tl resl
              Hparse Hbuild Hload Hloop) as [Hcalls Hpos].
  pose proof (main_with_loop W fuel argv t1 vm t2 r _ text tl resl
                Hparse Hbuild Hload Hloop) as Hmain.
  assert (Htr : loop_trace text (vm_max_chunk_size vm) (vm_no_output vm) 0 tl)
    by (apply (chunk_loop_trace W text (vm_max_chunk_size vm) (vm_no_output vm)
                 HL ltac:(lia) fuel r 0 tl resl); [lia|exact Hloop]).
  unfold windows. rewrite Hcalls, Hpos in *.
  destruct (loop_trace_sorted text (vm_max_chunk_size vm) (vm_no_output vm)
              HL ltac:(lia) 0 tl Htr ltac:(lia) Hres) as [_ [Hrange Heq]].
  split; [|split; [|split; [|split]]].
  - rewrite Hmain. simpl. apply in_or_app. right. apply in_or_app. right.
    right. left. reflexivity.
  - apply (loop_trace_windows text (vm_max_chunk_size vm) (vm_no_output vm)
             ltac:(lia) 0 tl Htr). lia.
  - rewrite Hmain. simpl. intros Hdone.
    destruct resl as [[]|e| |]; simpl in Hdone; try discriminate Hdone.
    destruct (chunk_loop_done W text (vm_max_chunk_size vm) (vm_no_output vm)
                HL Hw fuel r 0 tl ltac:(lia) Hloop) as [Hcat _].
    exact Hcat.
  - exact Heq.
  - exact Hrange.
Qed.

Lemma normalized_text_is_matched_witness :
  Forall (fun p => 0 <= p < size [102; 105])
    (positions
       (fst (main (sample_world true (with_normalize_file (plain_vm "i" "f" 16)) ligature_fi)
               10 ["oclgrep"; "i"; "f"]%string))).
Proof.
  apply (normalized_text_is_matched
           (sample_world true (with_normalize_file (plain_vm "i" "f" 16)) ligature_fi)
           10 ["oclgrep"; "i"; "f"]%string
           [EvParseArgs ["oclgrep"; "i"; "f"]%string]
           (with_normalize_file (plain_vm "i" "f" 16))
           [EvEngineNew; EvCompile [105]; EvRunnerNew 16] 105
           ligature_fi [102; 105]).
  - reflexivity.
  - reflexivity.
  - reflexivity.
  - reflexivity.
  - reflexivity.
  - reflexivity.
  - by_evaluation.
  - by_evaluation.
  - change (Forall result_ascending_in_window [(0, [102; 105], inr [1])]).
    check_results.
Defined.

(** The ligature U+FB01 is one code point; its normalization [fi] is two.
    With [--normalize-file] the pattern [i] is reported at position 1, which
    is a position of the normalized text and not of the decoded file. *)
Example normalized_position_not_in_original :
  size (utf_to_utf32 (sample_world true (with_normalize_file (plain_vm "i" "f" 16)) ligature_fi)
          ligature_fi) = 1
  /\ positions
       (fst (main (sample_world true (with_normalize_file (plain_vm "i" "f" 16)) ligature_fi)
               10 ["oclgrep"; "i"; "f"]%string)) = [1]
  /\ positions
       (fst (main (sample_world true (plain_vm "i" "f" 16) ligature_fi)
               10 ["oclgrep"; "i"; "f"]%string)) = [].
Proof. repeat split; reflexivity. Qed.

(** ** C6: the diagnostic dump *)

Lemma read_storage : forall g a,
  0 <= a < serial.size g -> read g a = Some (storage g a).
Proof.
  intros g a Ha. unfold read, storage, serial.size in *.
  destruct (a <? 0) eqn:Hneg; [apply Z.ltb_lt in Hneg; lia|].
  apply nth_error_nth'. lia.
Qed.

Lemma for_range_flat_map : forall (body : Z -> option (list out)) (f : Z -> list out) count k0,
  (forall k, (k0 <= k < k0 + count)%nat -> body (Z.of_nat k) = Some (f (Z.of_nat k))) ->
  for_range count (Z.of_nat k0) body = Some (flat_map f (map Z.of_nat (seq k0 count))).
Proof.
  intros body f count. induction count as [|count IH]; intros k0 Hbody.
  - reflexivity.
  - simpl. rewrite (Hbody k0) by lia.
    replace (Z.of_nat k0 + 1) with (Z.of_nat (S k0)) by lia.
    rewrite (IH (S k0)) by (intros k Hk; apply Hbody; lia).
    reflexivity.
Qed.

Lemma for_range_upto : forall (body : Z -> option (list out)) (f : Z -> list out) count,
  0 <= count ->
  (forall k, 0 <= k < count -> body k = Some (f k)) ->
  for_range (Z.to_nat count) 0 body = Some (flat_map f (upto count)).
Proof.
  intros body f count Hcount Hbody. unfold upto.
  apply (for_range_flat_map body f (Z.to_nat count) 0).
  intros k Hk. apply Hbody. lia.
Qed.

Lemma flat_map_map_comp : forall (A B C : Type) (h : A -> B) (f : B -> list C) l,
  flat_map f (map h l) = flat_map (fun a => f (h a)) l.
Proof.
  intros A B C h f l. induction l as [|a l IH]; simpl; [reflexivity|].
  rewrite IH. reflexivity.
Qed.

Lemma show_targets_from : forall (target : Z -> Z) count k0,
  flat_map (fun j => (if 0 <? j then [Str ","] else []) ++ [Num (target j)])
           (map Z.of_nat (seq k0 count))
  = show_targets (Nat.eqb k0 0) (map target (map Z.of_nat (seq k0 count))).
Proof.
  intros target count. induction count as [|count IH]; intros k0.
  - reflexivity.
  - simpl. rewrite (IH (S k0)). simpl.
    destruct k0 as [|k0]; simpl; [reflexivity|].
    destruct (0 <? Z.pos (Pos.of_succ_nat k0)) eqn:Hpos; [reflexivity|].
    apply Z.ltb_ge in Hpos. lia.
Qed.

Lemma print_entries_spec : forall g base_slot,
  0 <= serial.o g -> 0 <= base_slot ->
  base_slot + serial.o g <= serial.size g -> serial.size g < 2 ^ 64 ->
  print_entries g base_slot
  = Some (show_targets true (map (fun j => storage g (base_slot + j)) (upto (serial.o g)))).
Proof.
  intros g base_slot Ho Hbase Hend Hsz. unfold print_entries.
  rewrite (for_range_upto _
             (fun j => (if 0 <? j then [Str ","] else [])
                       ++ [Num (storage g (base_slot + j))]) (serial.o g) Ho).
  - unfold upto. rewrite (show_targets_from (fun j => storage g (base_slot + j))). reflexivity.
  - intros j Hj. rewrite size_t_small by lia.
    rewrite read_storage by lia. reflexivity.
Qed.

Lemma slot_fits : forall base m o k sz,
  0 <= base -> 0 <= o -> 0 <= k < m -> base + 1 + m * (1 + o) <= sz ->
  0 <= k * (1 + o) /\ base + 1 + k * (1 + o) + 1 + o <= sz.
Proof.
  intros base m o k sz Hbase Ho Hk Hend.
  assert (H1 : 0 <= k * (1 + o)) by (apply Z.mul_nonneg_nonneg; lia).
  assert (H2 : (k + 1) * (1 + o) <= m * (1 + o))
    by (apply Z.mul_le_mono_nonneg_r; lia).
  split; [exact H1|]. lia.
Qed.

Lemma print_slots_spec : forall g base m,
  0 <= serial.o g -> 0 <= base -> 0 <= m ->
  base + 1 + m * (1 + serial.o g) <= serial.size g -> serial.size g < 2 ^ 64 ->
  print_slots g (size_t (base + 1)) m
  = Some (flat_map show_slot
            (map (fun k =>
                    (storage g (base + 1 + k * (1 + serial.o g)),
                     map (fun j => storage g (base + 1 + k * (1 + serial.o g) + 1 + j))
                         (upto (serial.o g))))
                 (upto m))).
Proof.
  intros g base m Ho Hbase Hm Hend Hsz. unfold print_slots.
  rewrite flat_map_map_comp.
  apply for_range_upto; [exact Hm|].
  intros k Hk.
  destruct (slot_fits base m (serial.o g) k (serial.size g) Hbase Ho Hk Hend)
    as [Hmul Hfit].
  rewrite (size_t_small (1 + serial.o g)) by lia.
  rewrite (size_t_small (k * (1 + serial.o g))) by lia.
  rewrite (size_t_small (base + 1)) by lia.
  rewrite (size_t_small (base + 1 + k * (1 + serial.o g))) by lia.
  rewrite read_storage by lia.
  rewrite (size_t_small (base + 1 + k * (1 + serial.o g) + 1)) by lia.
  rewrite print_entries_spec by lia.
  reflexivity.
Qed.

Lemma print_tag_mark : forall d i, print_tag d i = show_mark (state_mark d i).
Proof.
  intros d i. unfold print_tag, state_mark.
  destruct (i =? serial.id_begin d); [reflexivity|].
  destruct (i =? serial.id_fail d); [reflexivity|].
  destruct (i =? serial.id_ok d); reflexivity.
Qed.

Lemma print_node_spec : forall d g i,
  0 <= serial.o g -> serial.size g < 2 ^ 64 -> 0 <= i ->
  state_in_bounds g i = true ->
  print_node d g i = Some (show_state (decode_state d g i)).
Proof.
  intros d g i Ho Hsz Hi Hin. unfold state_in_bounds in Hin.
  repeat rewrite andb_true_iff in Hin. destruct Hin as [[[Hi' Hbase] Hm] Hend].
  apply Z.ltb_lt in Hi'. apply Z.leb_le in Hbase, Hm, Hend.
  assert (Hmul : 0 <= state_m g i * (1 + serial.o g))
    by (apply Z.mul_nonneg_nonneg; lia).
  unfold print_node.
  rewrite read_storage by lia. fold (state_base g i).
  rewrite read_storage by lia. fold (state_m g i).
  rewrite print_slots_spec by assumption.
  rewrite print_tag_mark. reflexivity.
Qed.

(** C6.  For every automaton whose state records lie inside its storage and
    whose reserved ids are pairwise distinct, [print_graph] prints, after the
    header with [n], [o] and the size in bytes, for every state [i < n] in
    order exactly the view that the contractual arithmetic gives: the index
    [i], [m = storage[storage[i]]], the tag of the reserved state, and for
    every slot [k < m] the symbol [storage[base + 1 + k*(1+o)]] followed by
    the [o] targets [storage[base + 1 + k*(1+o) + 1 + j]]; the tag is START,
    REJECT or ACCEPT exactly for the ids [id_begin], [id_fail] and [id_ok]. *)
Theorem print_graph_follows_format : forall d g,
  graph_in_bounds g = true ->
  ids_distinct d ->
  print_graph d g
  = Some (print_header d g
          ++ flat_map (fun i => show_state (decode_state d g i)) (upto (serial.n g)))
  /\ forall i,
       (sv_mark (decode_state d g i) = Some START <-> i = serial.id_begin d)
       /\ (sv_mark (decode_state d g i) = Some REJECT <-> i = serial.id_fail d)
       /\ (sv_mark (decode_state d g i) = Some ACCEPT <-> i = serial.id_ok d).
Proof.
  intros d g Hin [Hbf [Hbo Hfo]]. unfold graph_in_bounds in Hin.
  repeat rewrite andb_true_iff in Hin. destruct Hin as [[[Hn Ho] Hsz] Hall].
  apply Z.leb_le in Hn, Ho. apply Z.ltb_lt in Hsz.
  rewrite forallb_forall in Hall.
  split.
  - unfold print_graph.
    rewrite (for_range_upto (print_node d g)
               (fun i => show_state (decode_state d g i)) (serial.n g) Hn).
    + reflexivity.
    + intros i Hi. apply print_node_spec; try assumption; [lia|].
      apply Hall. unfold upto. apply in_map_iff.
      exists (Z.to_nat i). split; [lia|]. apply in_seq. lia.
  - intros i. simpl. unfold state_mark.
    destruct (Z.eqb_spec i (serial.id_begin d)) as [Hb|Hb];
      [|destruct (Z.eqb_spec i (serial.id_fail d)) as [Hf|Hf];
        [|destruct (Z.eqb_spec i (serial.id_ok d)) as [Hk|Hk]]];
      repeat split; intros; try congruence.
Qed.

Lemma print_graph_follows_format_witness :
  print_graph sample_decl (literal_graph 97)
  = Some (print_header sample_decl (literal_graph 97)
          ++ flat_map (fun i => show_state (decode_state sample_decl (literal_graph 97) i))
               (upto (serial.n (literal_graph 97)))).
Proof.
  apply print_graph_follows_format.
  - reflexivity.
  - by_evaluation.
Defined.

(** * Beyond the claims *)

(** ** Failures before the loop *)

(** A file that cannot be opened is a caller-facing error of [readfile]; it
    is found only after the runner has been constructed. *)
Theorem missing_file_reported : forall W fuel argv t1 vm t2 (r : runner W),
  parse_command_line W argv = (t1, Done (inr vm)) ->
  build_runner W vm = (t2, Done r) ->
  fs_read W (vm_file vm) = None ->
  main W fuel argv
  = (t1 ++ t2 ++ [EvReadFile (vm_file vm); EvStderr "file does not exist!"],
     Done EXIT_FAILURE).
Proof.
  intros W fuel argv t1 vm t2 r Hparse Hbuild Hread.
  unfold main, main_try. rewrite Hparse. simpl. rewrite Hbuild. simpl.
  unfold load_input, readfile. rewrite Hread. norm_trace. reflexivity.
Qed.

Lemma missing_file_reported_witness :
  main (with_files banana_world (fun _ => None)) 10 banana_argv
  = ([EvParseArgs banana_argv] ++ [EvEngineNew; EvCompile [97]; EvRunnerNew 2]
     ++ [EvReadFile "f"; EvStderr "file does not exist!"], Done EXIT_FAILURE).
Proof.
  apply (missing_file_reported (with_files banana_world (fun _ => None)) 10 banana_argv
           [EvParseArgs banana_argv] (plain_vm "a" "f" 2)
           [EvEngineNew; EvCompile [97]; EvRunnerNew 2] 97).
  - reflexivity.
  - reflexivity.
  - reflexivity.
Defined.

(** [--help] wins over everything after the parser: the usage is printed
    and [main] returns 1 whatever [po::notify] would say about missing
    options; no engine is constructed and nothing is written to
    [std::cerr]. *)
Theorem help_returns_one : forall W fuel argv vm,
  locale_utf8 W = true ->
  po_store W argv = inr vm ->
  vm_help vm = true ->
  main W fuel argv = ([EvParseArgs argv; EvHelp], Done 1).
Proof.
  intros W fuel argv vm Hlocale Hstore Hhelp.
  unfold main, main_try, parse_command_line.
  rewrite Hlocale. simpl. rewrite Hstore. simpl. rewrite Hhelp. reflexivity.
Qed.

Lemma help_returns_one_witness :
  main (with_command_line banana_world (fun _ => inr help_vm)
          (fun _ => Some "the option '--regex' is required but missing"%string))
       10 ["oclgrep"; "--help"]%string
  = ([EvParseArgs ["oclgrep"; "--help"]%string; EvHelp], Done 1).
Proof.
  apply (help_returns_one _ 10 ["oclgrep"; "--help"]%string help_vm).
  - reflexivity.
  - reflexivity.
  - reflexivity.
Defined.

(** What the option parser throws, from [po::store] or (without [--help])
    from [po::notify], is reported word for word as a caller-facing error;
    nothing else is done. *)
Theorem command_line_error_reported : forall W fuel argv what,
  locale_utf8 W = true ->
  po_store W argv = inl what
  \/ (exists vm, po_store W argv = inr vm /\ vm_help vm = false
                 /\ po_notify W vm = Some what) ->
  main W fuel argv = ([EvParseArgs argv; EvStderr what], Done EXIT_FAILURE).
Proof.
  intros W fuel argv what Hlocale [Hstore|[vm [Hstore [Hhelp Hnotify]]]];
    unfold main, main_try, parse_command_line;
    rewrite Hlocale; simpl; rewrite Hstore; simpl.
  - reflexivity.
  - rewrite Hhelp. simpl. rewrite Hnotify. reflexivity.
Qed.

Lemma command_line_error_reported_witness :
  main (with_command_line banana_world (fun _ => inl "unrecognised option '--foo'"%string)
          (fun _ => None))
       10 ["oclgrep"; "--foo"]%string
  = ([EvParseArgs ["oclgrep"; "--foo"]%string; EvStderr "unrecognised option '--foo'"],
     Done EXIT_FAILURE).
Proof.
  apply command_line_error_reported.
  - reflexivity.
  - left. reflexivity.
Defined.

(** When the construction of the engine throws, the handler that fits the
    exception runs at once: a [user_error] is printed as it is, any other
    exception inside the five-line internal-error report; the pattern is not
    even converted. *)
Theorem engine_failure_reported : forall W fuel argv t1 vm e,
  parse_command_line W argv = (t1, Done (inr vm)) ->
  oclengine_new W = inl e ->
  main W fuel argv = (t1 ++ [EvEngineNew] ++ handle e, Done EXIT_FAILURE).
Proof.
  intros W fuel argv t1 vm e Hparse Heng.
  unfold main, main_try. rewrite Hparse. simpl.
  unfold build_runner. rewrite Heng. norm_trace. reflexivity.
Qed.

Lemma engine_failure_reported_witness :
  main (with_engine_failure banana_world (std_exception "no OpenCL platform")) 10 banana_argv
  = ([EvParseArgs banana_argv] ++ [EvEngineNew]
     ++ handle (std_exception "no OpenCL platform"), Done EXIT_FAILURE).
Proof.
  apply (engine_failure_reported _ 10 banana_argv [EvParseArgs banana_argv]
           (plain_vm "a" "f" 2)).
  - reflexivity.
  - reflexivity.
Defined.

(** With [--normalize-regex] the pattern that reaches the compiler is the
    NFKC normalization of the decoded pattern, and a failure of the
    normalization ends the construction before the compiler is called. *)
Theorem pattern_normalized_before_compile : forall W vm (eng : engine W),
  oclengine_new W = inr eng ->
  vm_normalize_regex vm = true ->
  match nfkc W (utf_to_utf32 W (vm_regex vm)) with
  | inr re =>
      exists rest,
        fst (build_runner W vm)
        = [EvEngineNew; EvNormalize (utf_to_utf32 W (vm_regex vm)); EvCompile re] ++ rest
  | inl e =>
      build_runner W vm
      = ([EvEngineNew; EvNormalize (utf_to_utf32 W (vm_regex vm))], Throw e)
  end.
Proof.
  intros W vm eng Heng Hflag.
  unfold build_runner, normalize_if. rewrite Heng, Hflag. simpl.
  destruct (nfkc W (utf_to_utf32 W (vm_regex vm))) as [e|re]; simpl; [reflexivity|].
  destruct (string_to_graph W re) as [e|g]; simpl.
  - exists []. reflexivity.
  - destruct (print_graph_if W (vm_print_graph vm) g) as [tg [[]|e| |]]; simpl;
      try (eexists; reflexivity).
    destruct (oclrunner_new W eng (vm_max_chunk_size vm) g (vm_print_profile vm));
      simpl; eexists; reflexivity.
Qed.

Lemma pattern_normalized_before_compile_witness :
  exists rest,
    fst (build_runner (sample_world true (with_normalize_regex (plain_vm ligature_fi "f" 2))
                         "banana")
           (with_normalize_regex (plain_vm ligature_fi "f" 2)))
    = [EvEngineNew; EvNormalize [64257]; EvCompile [102; 105]] ++ rest.
Proof.
  pose proof (pattern_normalized_before_compile
                (sample_world true (with_normalize_regex (plain_vm ligature_fi "f" 2))
                   "banana")
                (with_normalize_regex (plain_vm ligature_fi "f" 2)) tt
                eq_refl eq_refl) as H.
  vm_compute in H. vm_compute. exact H.
Defined.

(** ** The exit status *)

Lemma parse_command_line_early_return : forall W argv t code,
  parse_command_line W argv = (t, Done (inl code)) -> code = 1.
Proof.
  intros W argv t code H. unfold parse_command_line in H.
  destruct (locale_utf8 W); simpl in H; [|discriminate H].
  destruct (po_store W argv) as [what|vm]; simpl in H; [discriminate H|].
  destruct (vm_help vm); simpl in H; [inversion H; reflexivity|].
  destruct (po_notify W vm); simpl in H; discriminate H.
Qed.

Lemma main_success_inv : forall W fuel argv,
  snd (main W fuel argv) = Done EXIT_SUCCESS ->
  exists t1 vm t2 r t3 text tl,
    parse_command_line W argv = (t1, Done (inr vm))
    /\ build_runner W vm = (t2, Done r)
    /\ load_input W vm = (t3, Done text)
    /\ chunk_loop W fuel r text (vm_max_chunk_size vm) (vm_no_output vm) 0 = (tl, Done tt).
Proof.
  intros W fuel argv H.
  destruct (parse_command_line W argv) as [t1 [[code|vm]|e| |]] eqn:Hparse;
    unfold main, main_try in H; rewrite Hparse in H; simpl in H; try discriminate H.
  - apply parse_command_line_early_return in Hparse. subst code. discriminate H.
  - destruct (build_runner W vm) as [t2 [r|e| |]] eqn:Hbuild; simpl in H;
      try discriminate H.
    destruct (load_input W vm) as [t3 [text|e| |]] eqn:Hload; simpl in H;
      try discriminate H.
    destruct (chunk_loop W fuel r text (vm_max_chunk_size vm) (vm_no_output vm) 0)
      as [tl [[]|e| |]] eqn:Hloop; simpl in H; try discriminate H.
    exists t1, vm, t2, r, t3, text, tl.
    repeat match goal with |- _ /\ _ => split end; first [reflexivity|assumption].
Qed.

(** [main] returns [EXIT_SUCCESS] only when the three stages before the loop
    succeeded and the loop ran to its end: then (the text fitting a
    [std::u32string] and the window size being a positive 32-bit value)
    the windows handed to [runner.run] add up to the whole loaded text, in
    [ceiling (L / w)] calls. *)
Theorem exit_success_means_text_searched : forall W fuel argv,
  snd (main W fuel argv) = Done EXIT_SUCCESS ->
  exists t1 vm t2 (r : runner W) t3 text,
    parse_command_line W argv = (t1, Done (inr vm))
    /\ build_runner W vm = (t2, Done r)
    /\ load_input W vm = (t3, Done text)
    /\ (size text <= u32string_max_size ->
        0 < vm_max_chunk_size vm <= uint32_max ->
        concat (map snd (windows (fst (main W fuel argv)))) = text
        /\ Z.of_nat (List.length (run_calls (fst (main W fuel argv))))
           = ceil_div (size text) (vm_max_chunk_size vm)).
Proof.
  intros W fuel argv H.
  destruct (main_success_inv W fuel argv H)
    as [t1 [vm [t2 [r [t3 [text [tl [Hparse [Hbuild [Hload Hloop]]]]]]]]]].
  exists t1, vm, t2, r, t3, text.
  split; [exact Hparse|]. split; [exact Hbuild|]. split; [exact Hload|].
  intros HL Hw.
  destruct (main_with_loop_reads W fuel argv t1 vm t2 r t3 text tl (Done tt)
              Hparse Hbuild Hload Hloop) as [Hcalls _].
  unfold windows. rewrite Hcalls.
  pose proof (size_nonneg text) as Hsz.
  destruct (chunk_loop_done W text (vm_max_chunk_size vm) (vm_no_output vm)
              HL Hw fuel r 0 tl ltac:(lia) Hloop) as [Hcat Hcount].
  split; [exact Hcat|].
  rewrite Z.sub_0_r in Hcount. apply Hcount. lia.
Qed.

Lemma exit_success_means_text_searched_witness :
  exists t1 vm t2 (r : runner banana_world) t3 text,
    parse_command_line banana_world banana_argv = (t1, Done (inr vm))
    /\ build_runner banana_world vm = (t2, Done r)
    /\ load_input banana_world vm = (t3, Done text)
    /\ (size text <= u32string_max_size ->
        0 < vm_max_chunk_size vm <= uint32_max ->
        concat (map snd (windows (fst (main banana_world 10 banana_argv)))) = text
        /\ Z.of_nat (List.length (run_calls (fst (main banana_world 10 banana_argv))))
           = ceil_div (size text) (vm_max_chunk_size vm)).
Proof.
  apply exit_success_means_text_searched. reflexivity.
Defined.

(** ** Standard error *)

Lemma stderr_lines_app : forall t1 t2,
  stderr_lines (t1 ++ t2) = stderr_lines t1 ++ stderr_lines t2.
Proof.
  intros t1 t2. induction t1 as [|e t1 IH]; simpl.
  - reflexivity.
  - destruct e; simpl; rewrite IH; reflexivity.
Qed.

Lemma silent_bind : forall (A B : Type) (m : M A) (k : A -> M B),
  stderr_lines (fst m) = [] ->
  (forall a, stderr_lines (fst (k a)) = []) ->
  stderr_lines (fst (bind m k)) = [].
Proof.
  intros A B [t [a|e| |]] k Hm Hk; simpl in *; try exact Hm.
  specialize (Hk a). destruct (k a) as [t' r]. simpl in *.
  rewrite stderr_lines_app, Hm, Hk. reflexivity.
Qed.

Ltac silent_stage :=
  repeat first
    [ apply silent_bind; [|intros ?]
    | match goal with
      | |- stderr_lines (fst (match ?x with _ => _ end)) = [] => destruct x
      | |- stderr_lines (fst (if ?x then _ else _)) = [] => destruct x
      end
    | reflexivity ].

Lemma parse_command_line_silent : forall W argv,
  stderr_lines (fst (parse_command_line W argv)) = [].
Proof. intros W argv. unfold parse_command_line. silent_stage. Qed.

Lemma build_runner_silent : forall W vm, stderr_lines (fst (build_runner W vm)) = [].
Proof.
  intros W vm. unfold build_runner, normalize_if, print_graph_if, call. silent_stage.
Qed.

Lemma load_input_silent : forall W vm, stderr_lines (fst (load_input W vm)) = [].
Proof.
  intros W vm. unfold load_input, readfile, normalize_if, call. silent_stage.
Qed.

Lemma print_result_silent : forall offset result,
  stderr_lines (fst (print_result offset result)) = [].
Proof.
  intros offset result. rewrite print_result_eq. simpl.
  induction result as [|idx rest IH]; simpl; [reflexivity|exact IH].
Qed.

Lemma chunk_loop_silent : forall W fuel r text w no offset,
  stderr_lines (fst (chunk_loop W fuel r text w no offset)) = [].
Proof.
  intros W fuel. induction fuel as [|fuel IH]; intros r text w no offset.
  - reflexivity.
  - simpl. destruct (offset <? size text); [|reflexivity].
    destruct (Z.min (size_t (offset + w)) (size text) <? offset); [reflexivity|].
    apply silent_bind.
    + unfold call_run. destruct (oclrunner_run W r _) as [e|[r' result]]; reflexivity.
    + intros rr. apply silent_bind.
      * destruct no; [reflexivity|apply print_result_silent].
      * intros _. apply IH.
Qed.

Lemma main_try_silent : forall W fuel argv,
  stderr_lines (fst (main_try W fuel argv)) = [].
Proof.
  intros W fuel argv. unfold main_try.
  apply silent_bind; [apply parse_command_line_silent|].
  intros [code|vm]; [reflexivity|].
  apply silent_bind; [apply build_runner_silent|]. intros r.
  apply silent_bind; [apply load_input_silent|]. intros text.
  apply silent_bind; [apply chunk_loop_silent|]. intros _. reflexivity.
Qed.

(** Only the two handlers write to [std::cerr]: whenever [main] has written
    a line there, an exception was caught and [main] returns
    [EXIT_FAILURE]. *)
Theorem stderr_means_failure : forall W fuel argv,
  stderr_lines (fst (main W fuel argv)) <> [] ->
  snd (main W fuel argv) = Done EXIT_FAILURE
  /\ exists e, snd (main_try W fuel argv) = Throw e
               /\ stderr_lines (fst (main W fuel argv)) = stderr_lines (handle e).
Proof.
  intros W fuel argv Hloud.
  pose proof (main_try_silent W fuel argv) as Hsilent.
  unfold main in *.
  destruct (main_try W fuel argv) as [t [c|e| |]]; simpl in *;
    try (exfalso; apply Hloud; exact Hsilent).
  split; [reflexivity|]. exists e. split; [reflexivity|].
  rewrite stderr_lines_app, Hsilent. reflexivity.
Qed.

Lemma stderr_means_failure_witness :
  snd (main (sample_world true (plain_vm "(a" "f" 2) "banana") 10
         ["oclgrep"; "(a"; "f"]%string) = Done EXIT_FAILURE.
Proof.
  apply stderr_means_failure. by_evaluation.
Defined.

(** ** More about the loop *)

(** One evaluation of the loop condition and, if it holds, one turn; no
    assumption on the size of the text or of the step. *)
Lemma chunk_loop_unfold : forall W fuel r text w no offset,
  chunk_loop W (S fuel) r text w no offset
  = if offset <? size text then
      if Z.min (size_t (offset + w)) (size text) <? offset then ([], Undefined)
      else
        match oclrunner_run W r
                (substr text offset (Z.min (size_t (offset + w)) (size text))) with
        | inl e =>
            ([EvRun offset
                (substr text offset (Z.min (size_t (offset + w)) (size text))) (inl e)],
             Throw e)
        | inr (r', result) =>
            (EvRun offset
               (substr text offset (Z.min (size_t (offset + w)) (size text))) (inr result)
             :: printed no offset result
             ++ fst (chunk_loop W fuel r' text w no (size_t (offset + w))),
             snd (chunk_loop W fuel r' text w no (size_t (offset + w))))
        end
    else ([], Done tt).
Proof.
  intros W fuel r text w no offset. simpl.
  destruct (offset <? size text); [|reflexivity].
  destruct (Z.min (size_t (offset + w)) (size text) <? offset); [reflexivity|].
  unfold call_run, printed.
  destruct (oclrunner_run W r _) as [e|[r' result]]; [reflexivity|]. simpl.
  destruct (chunk_loop W fuel r' text w no (size_t (offset + w))) as [t' res'].
  destruct no; simpl; try rewrite print_result_eq; simpl; destruct res'; reflexivity.
Qed.

Lemma drop_positions_app : forall t1 t2,
  drop_positions (t1 ++ t2) = drop_positions t1 ++ drop_positions t2.
Proof.
  intros t1 t2. induction t1 as [|e t1 IH]; simpl.
  - reflexivity.
  - destruct e; simpl; rewrite IH; reflexivity.
Qed.

Lemma drop_positions_printed : forall no offset result,
  drop_positions (printed no offset result) = [].
Proof.
  intros no offset result. unfold printed. destruct no; [reflexivity|].
  induction result as [|idx rest IH]; simpl; [reflexivity|exact IH].
Qed.

(** [--no-output] changes nothing but the printing: the loop makes the same
    calls on the same windows, ends the same way, and its trace is the trace
    of the printing run with the positions taken out. *)
Theorem no_output_only_silences : forall W fuel (r : runner W) text w offset,
  chunk_loop W fuel r text w true offset
  = (drop_positions (fst (chunk_loop W fuel r text w false offset)),
     snd (chunk_loop W fuel r text w false offset)).
Proof.
  intros W fuel. induction fuel as [|fuel IH]; intros r text w offset.
  - reflexivity.
  - rewrite !chunk_loop_unfold.
    destruct (offset <? size text); [|reflexivity].
    destruct (Z.min (size_t (offset + w)) (size text) <? offset); [reflexivity|].
    destruct (oclrunner_run W r _) as [e|[r' result]]; [reflexivity|].
    rewrite IH. cbn [fst snd drop_positions].
    rewrite drop_positions_app, drop_positions_printed. reflexivity.
Qed.

(** The precondition of [runner.run] is kept by every call, however the
    loop ends: each window has at most [max_chunk_size] code points and lies
    inside the text. *)
Theorem every_window_within_limit : forall W fuel (r : runner W) text w no,
  size text <= u32string_max_size ->
  0 <= w <= uint32_max ->
  Forall (fun oc => size (snd oc) <= w
                    /\ 0 <= fst oc
                    /\ fst oc + size (snd oc) <= size text)
         (windows (fst (chunk_loop W fuel r text w no 0))).
Proof.
  intros W fuel r text w no HL Hw.
  destruct (chunk_loop W fuel r text w no 0) as [t res] eqn:Hrun. simpl.
  assert (Htr : loop_trace text w no 0 t)
    by (apply (chunk_loop_trace W text w no HL Hw fuel r 0 t res); [lia|exact Hrun]).
  destruct (loop_trace_windows text w no ltac:(lia) 0 t Htr ltac:(lia)) as [_ Hall].
  eapply Forall_impl; [|exact Hall]. intros [off chunk]. simpl.
  intros [Hoff Hchunk]. subst chunk. rewrite size_substr by lia. lia.
Qed.

Lemma every_window_within_limit_witness :
  Forall (fun oc => size (snd oc) <= 2
                    /\ 0 <= fst oc
                    /\ fst oc + size (snd oc) <= size banana_text)
         (windows (fst (chunk_loop banana_world 2 97 banana_text 2 false 0))).
Proof.
  apply (every_window_within_limit banana_world 2 97 banana_text 2 false).
  - by_evaluation.
  - by_evaluation.
Defined.

Lemma substr_whole : forall (text : u32string), substr text 0 (size text) = text.
Proof.
  intros text. unfold substr, size. simpl.
  rewrite Z.sub_0_r, Nat2Z.id. apply firstn_all.
Qed.

(** A text that is not longer than [max_chunk_size] is matched in a single
    call on the whole text, and the local offsets are printed as they
    are. *)
Theorem short_text_single_call : forall W fuel (r r' : runner W) text w no result,
  0 < size text <= w ->
  w <= uint32_max ->
  oclrunner_run W r text = inr (r', result) ->
  Forall (fun idx => 0 <= idx <= uint32_max) result ->
  chunk_loop W (S (S fuel)) r text w no 0
  = (EvRun 0 text (inr result) :: (if no then [] else map EvPosition result), Done tt).
Proof.
  intros W fuel r r' text w no result Hsz Hw Hcall Hres.
  assert (HL : size text <= u32string_max_size)
    by (unfold u32string_max_size, uint32_max in *; lia).
  assert (Hchunk : substr text 0 (Z.min (0 + w) (size text)) = text).
  { rewrite Z.min_r by lia. apply substr_whole. }
  rewrite (chunk_loop_turn_ok W (S fuel) r text w no 0 r' result [] (Done tt));
    [|exact HL|lia|lia|rewrite Hchunk; exact Hcall|apply chunk_loop_exit; lia].
  rewrite Hchunk, app_nil_r. unfold printed. destruct no; [reflexivity|].
  f_equal. f_equal. apply map_ext_in. intros idx Hidx.
  rewrite Forall_forall in Hres. specialize (Hres idx Hidx).
  simpl. rewrite size_t_small by (unfold uint32_max in *; lia). reflexivity.
Qed.

Lemma short_text_single_call_witness :
  chunk_loop banana_world 2 97 banana_text 16 false 0
  = (EvRun 0 banana_text (inr [1; 3; 5]) :: map EvPosition [1; 3; 5], Done tt).
Proof.
  apply (short_text_single_call banana_world 0 97 97 banana_text 16 false [1; 3; 5]).
  - by_evaluation.
  - by_evaluation.
  - reflexivity.
  - check_results.
Defined.

Lemma chunk_loop_throw_inv : forall W fuel (r : runner W) text w no offset t e,
  chunk_loop W fuel r text w no offset = (t, Throw e) ->
  exists t' off chunk,
    t = t' ++ [EvRun off chunk (inl e)] /\ Forall returned (run_calls t').
Proof.
  intros W fuel. induction fuel as [|fuel IH]; intros r text w no offset t e Hrun.
  - simpl in Hrun. discriminate Hrun.
  - rewrite chunk_loop_unfold in Hrun.
    destruct (offset <? size text); [|discriminate Hrun].
    destruct (Z.min (size_t (offset + w)) (size text) <? offset); [discriminate Hrun|].
    destruct (oclrunner_run W r _) as [e0|[r' result]].
    + inversion Hrun; subst.
      exists [], offset, (substr text offset (Z.min (size_t (offset + w)) (size text))).
      split; [reflexivity|constructor].
    + destruct (chunk_loop W fuel r' text w no (size_t (offset + w)))
        as [tx resx] eqn:Hrest.
      simpl in Hrun. inversion Hrun; subst.
      destruct (IH r' text w no _ tx e Hrest) as [t' [off [chunk [Ht Hret]]]].
      subst tx.
      exists (EvRun offset
                (substr text offset (Z.min (size_t (offset + w)) (size text)))
                (inr result) :: printed no offset result ++ t'), off, chunk.
      split.
      * simpl. rewrite <- app_assoc. reflexivity.
      * rewrite run_calls_step. constructor; [exact I|exact Hret].
Qed.

(** When a call of [runner.run] throws, the search stops at that call: every
    call before it had returned and what those calls reported stays printed,
    the failing call is followed at once by the handler's report, nothing is
    printed for the rest of the text, and [main] returns [EXIT_FAILURE]. *)
Theorem run_failure_reported :
  forall W fuel argv t1 vm t2 (r : runner W) t3 text tl e,
  parse_command_line W argv = (t1, Done (inr vm)) ->
  build_runner W vm = (t2, Done r) ->
  load_input W vm = (t3, Done text) ->
  chunk_loop W fuel r text (vm_max_chunk_size vm) (vm_no_output vm) 0 = (tl, Throw e) ->
  exists t' off chunk,
    main W fuel argv
    = (t1 ++ t2 ++ t3 ++ t' ++ [EvRun off chunk (inl e)] ++ handle e, Done EXIT_FAILURE)
    /\ Forall returned (run_calls t')
    /\ positions (fst (main W fuel argv)) = positions t'.
Proof.
  intros W fuel argv t1 vm t2 r t3 text tl e Hparse Hbuild Hload Hloop.
  destruct (chunk_loop_throw_inv W fuel r text _ _ 0 tl e Hloop)
    as [t' [off [chunk [Ht Hret]]]].
  exists t', off, chunk.
  destruct (main_with_loop_reads W fuel argv t1 vm t2 r t3 text tl (Throw e)
              Hparse Hbuild Hload Hloop) as [_ Hpos].
  rewrite (main_with_loop W fuel argv t1 vm t2 r t3 text tl (Throw e)
             Hparse Hbuild Hload Hloop) in *.
  subst tl. simpl in *. split; [|split; [exact Hret|]].
  - rewrite <- !app_assoc. reflexivity.
  - rewrite Hpos, positions_app. simpl. apply app_nil_r.
Qed.

Lemma run_failure_reported_witness :
  exists t' off chunk,
    main (with_run banana_world fragile_run) 10 banana_argv
    = ([EvParseArgs banana_argv] ++ [EvEngineNew; EvCompile [97]; EvRunnerNew 2]
       ++ [EvReadFile "f"] ++ t' ++ [EvRun off chunk (inl (std_exception "device lost"))]
       ++ handle (std_exception "device lost"), Done EXIT_FAILURE)
    /\ Forall returned (run_calls t')
    /\ positions (fst (main (with_run banana_world fragile_run) 10 banana_argv))
       = positions t'.
Proof.
  apply (run_failure_reported (with_run banana_world fragile_run) 10 banana_argv
           [EvParseArgs banana_argv] (plain_vm "a" "f" 2)
           [EvEngineNew; EvCompile [97]; EvRunnerNew 2] 97 [EvReadFile "f"] banana_text
           [EvRun 0 [98; 97] (inr [1]); EvPosition 1;
            EvRun 2 [110; 97] (inl (std_exception "device lost"))]).
  - reflexivity.
  - reflexivity.
  - reflexivity.
  - reflexivity.
Defined.

(** Every printed position is an index into the loaded text, when the
    local offsets of every call lie strictly ascending inside its window. *)
Theorem printed_positions_index_text : forall W fuel (r : runner W) text w no,
  size text <= u32string_max_size ->
  0 <= w <= uint32_max ->
  Forall result_ascending_in_window (run_calls (fst (chunk_loop W fuel r text w no 0))) ->
  Forall (fun p => 0 <= p < size text) (positions (fst (chunk_loop W fuel r text w no 0))).
Proof.
  intros W fuel r text w no HL Hw Hres.
  destruct (chunk_loop W fuel r text w no 0) as [t res] eqn:Hrun. simpl in *.
  assert (Htr : loop_trace text w no 0 t)
    by (apply (chunk_loop_trace W text w no HL Hw fuel r 0 t res); [lia|exact Hrun]).
  apply (loop_trace_sorted text w no HL ltac:(lia) 0 t Htr ltac:(lia) Hres).
Qed.

Lemma printed_positions_index_text_witness :
  Forall (fun p => 0 <= p < size banana_text)
    (positions (fst (chunk_loop banana_world 10 97 banana_text 2 false 0))).
Proof.
  refine (printed_positions_index_text banana_world 10 97 banana_text 2 false _ _ _).
  - by_evaluation.
  - by_evaluation.
  - change (Forall result_ascending_in_window
              [(0, [98; 97], inr [1]); (2, [110; 97], inr [1]); (4, [110; 97], inr [1])]).
    check_results.
Defined.

(** ** Where the windows begin *)

Lemma upto_succ : forall c,
  0 <= c -> upto (c + 1) = 0 :: map (fun k => k + 1) (upto c).
Proof.
  intros c Hc. unfold upto.
  replace (Z.to_nat (c + 1)) with (S (Z.to_nat c)) by lia.
  simpl. f_equal. rewrite <- seq_shift, !map_map.
  apply map_ext. intros k. lia.
Qed.

Lemma chunk_loop_windows_from : forall W text w no,
  size text <= u32string_max_size -> 0 < w <= uint32_max ->
  forall fuel r k t,
    0 <= k -> k * w < size text + w ->
    chunk_loop W fuel r text w no (k * w) = (t, Done tt) ->
    windows t
    = map (fun j => nth_window text w (k + j)) (upto (ceil_div (size text - k * w) w)).
Proof.
  intros W text w no HL Hw fuel.
  induction fuel as [|fuel IH]; intros r k t Hk Hnear Hrun.
  - simpl in Hrun. discriminate Hrun.
  - assert (Hkw : 0 <= k * w) by (apply Z.mul_nonneg_nonneg; lia).
    destruct (Z.lt_ge_cases (k * w) (size text)) as [Hlt|Hge].
    + apply chunk_loop_turn_inv in Hrun; [|assumption|lia|lia].
      destruct Hrun as [[e [_ Hres]]|[r' [result [t' [_ [Hrest Ht]]]]]];
        [discriminate Hres|]. subst t.
      replace (k * w + w) with ((k + 1) * w) in Hrest by lia.
      apply IH in Hrest; [|lia|lia].
      rewrite windows_step, Hrest.
      rewrite (ceil_div_step (size text - k * w) w) by lia.
      replace (size text - k * w - w) with (size text - (k + 1) * w) by lia.
      pose proof (ceil_div_nonneg (size text - (k + 1) * w) w ltac:(lia) ltac:(lia)).
      replace (1 + ceil_div (size text - (k + 1) * w) w)
        with (ceil_div (size text - (k + 1) * w) w + 1) by lia.
      rewrite upto_succ by assumption.
      simpl. rewrite map_map. f_equal.
      * unfold nth_window. rewrite Z.add_0_r. reflexivity.
      * apply map_ext. intros j. f_equal. lia.
    + rewrite chunk_loop_exit in Hrun by lia. inversion Hrun; subst.
      rewrite ceil_div_zero by lia. reflexivity.
Qed.

(** The windows are cut at the multiples of [max_chunk_size]: of the
    [ceiling (L / w)] windows of a completed loop, the [k]-th starts at
    [k * w] and runs to [k * w + w] or to the end of the text. *)
Theorem windows_start_at_multiples : forall W fuel (r : runner W) text w no,
  size text <= u32string_max_size ->
  0 < w <= uint32_max ->
  run_returns W ->
  ceil_div (size text) w < Z.of_nat fuel ->
  windows (fst (chunk_loop W fuel r text w no 0))
  = map (nth_window text w) (upto (ceil_div (size text) w)).
Proof.
  intros W fuel r text w no HL Hw Hret Hfuel.
  pose proof (size_nonneg text) as Hsz.
  destruct (chunk_loop_terminates W text w no Hret HL Hw fuel r 0) as [t Hrun];
    [lia|rewrite Z.sub_0_r; exact Hfuel|].
  rewrite Hrun. simpl.
  rewrite (chunk_loop_windows_from W text w no HL Hw fuel r 0 t); try lia.
  - rewrite Z.mul_0_l, Z.sub_0_r. apply map_ext. intros j. reflexivity.
  - exact Hrun.
Qed.

Lemma windows_start_at_multiples_witness :
  windows (fst (chunk_loop banana_world 4 97 [98; 97; 110; 97; 110] 2 false 0))
  = map (nth_window [98; 97; 110; 97; 110] 2) (upto (ceil_div (size [98; 97; 110; 97; 110]) 2)).
Proof.
  apply windows_start_at_multiples.
  - by_evaluation.
  - by_evaluation.
  - apply sample_run_returns.
  - by_evaluation.
Defined.

(** ** The size of the dump *)

Lemma count_endl_app : forall a b, count_endl (a ++ b) = (count_endl a + count_endl b)%nat.
Proof.
  intros a b. induction a as [|x a IH]; simpl; [reflexivity|].
  destruct x; simpl; rewrite IH; reflexivity.
Qed.

Lemma count_endl_targets : forall first ids, count_endl (show_targets first ids) = O.
Proof.
  intros first ids. revert first.
  induction ids as [|id ids IH]; intros first; simpl; [reflexivity|].
  rewrite count_endl_app. simpl. rewrite IH. destruct first; reflexivity.
Qed.

Lemma count_endl_slots : forall slots,
  count_endl (flat_map show_slot slots) = List.length slots.
Proof.
  intros slots. induction slots as [|s slots IH]; simpl; [reflexivity|].
  rewrite !count_endl_app, count_endl_targets, IH. reflexivity.
Qed.

Lemma length_upto : forall k, List.length (upto k) = Z.to_nat k.
Proof. intros k. unfold upto. rewrite length_map, length_seq. reflexivity. Qed.

Lemma count_endl_state : forall d g i,
  count_endl (show_state (decode_state d g i)) = S (Z.to_nat (state_m g i)).
Proof.
  intros d g i. unfold show_state. simpl.
  rewrite count_endl_app. simpl.
  assert (Hmark : count_endl (show_mark (state_mark d i)) = O)
    by (destruct (state_mark d i) as [[]|]; reflexivity).
  rewrite Hmark. simpl.
  rewrite count_endl_slots, length_map, length_upto. reflexivity.
Qed.

Lemma count_endl_states : forall d g (l : list Z),
  Forall (fun i => 0 <= state_m g i) l ->
  Z.of_nat (count_endl (flat_map (fun i => show_state (decode_state d g i)) l))
  = Z.of_nat (List.length l) + fold_right Z.add 0 (map (state_m g) l).
Proof.
  intros d g l Hall. induction Hall as [|i l Hi Hall IH]; [reflexivity|].
  cbn [flat_map List.length map fold_right].
  rewrite count_endl_app, count_endl_state. lia.
Qed.

(** The dump of an automaton whose records lie inside its storage has one
    line for the header, one for every state and one for every transition
    slot. *)
Theorem print_graph_line_count : forall d g,
  graph_in_bounds g = true ->
  exists text,
    print_graph d g = Some text
    /\ Z.of_nat (count_endl text) = 1 + serial.n g + total_slots g.
Proof.
  intros d g Hin. unfold graph_in_bounds in Hin.
  repeat rewrite andb_true_iff in Hin. destruct Hin as [[[Hn Ho] Hsz] Hall].
  apply Z.leb_le in Hn, Ho. apply Z.ltb_lt in Hsz.
  rewrite forallb_forall in Hall.
  assert (Hstates : forall i, In i (upto (serial.n g)) ->
                      0 <= i /\ state_in_bounds g i = true).
  { intros i Hi. split; [|apply Hall; exact Hi].
    unfold upto in Hi. apply in_map_iff in Hi. destruct Hi as [k [Hk _]]. lia. }
  exists (print_header d g
          ++ flat_map (fun i => show_state (decode_state d g i)) (upto (serial.n g))).
  split.
  - unfold print_graph.
    rewrite (for_range_upto (print_node d g)
               (fun i => show_state (decode_state d g i)) (serial.n g) Hn);
      [reflexivity|].
    intros i Hi. apply print_node_spec; try assumption; [lia|].
    apply Hall. unfold upto. apply in_map_iff.
    exists (Z.to_nat i). split; [lia|]. apply in_seq. lia.
  - rewrite count_endl_app. simpl count_endl at 1.
    rewrite Nat2Z.inj_add, count_endl_states.
    + rewrite length_upto. unfold total_slots. lia.
    + apply Forall_forall. intros i Hi.
      destruct (Hstates i Hi) as [_ Hb]. unfold state_in_bounds in Hb.
      repeat rewrite andb_true_iff in Hb. destruct Hb as [[[_ _] Hm] _].
      apply Z.leb_le in Hm. exact Hm.
Qed.

Lemma print_graph_line_count_witness :
  exists text,
    print_graph sample_decl (literal_graph 97) = Some text
    /\ Z.of_nat (count_endl text)
       = 1 + serial.n (literal_graph 97) + total_slots (literal_graph 97).
Proof.
  apply print_graph_line_count. reflexivity.
Defined.

(** ** The input file *)

Lemma files_read_app : forall t1 t2, files_read (t1 ++ t2) = files_read t1 ++ files_read t2.
Proof.
  intros t1 t2. induction t1 as [|e t1 IH]; simpl.
  - reflexivity.
  - destruct e; simpl; rewrite IH; reflexivity.
Qed.

Lemma fst_bind : forall (A B : Type) (m : M A) (k : A -> M B),
  fst (bind m k)
  = fst m ++ match snd m with
             | Done a => fst (k a)
             | _ => []
             end.
Proof.
  intros A B [t [a|e| |]] k; simpl; try (rewrite app_nil_r; reflexivity).
  destruct (k a) as [t' r]. reflexivity.
Qed.

Lemma snd_bind : forall (A B : Type) (m : M A) (k : A -> M B),
  snd (bind m k)
  = match snd m with
    | Done a => snd (k a)
    | Throw e => Throw e
    | Timeout => Timeout
    | Undefined => Undefined
    end.
Proof.
  intros A B [t [a|e| |]] k; simpl; try reflexivity.
  destruct (k a) as [t' r]. reflexivity.
Qed.

Lemma unread_bind : forall (A B : Type) (m : M A) (k : A -> M B),
  files_read (fst m) = [] ->
  (forall a, files_read (fst (k a)) = []) ->
  files_read (fst (bind m k)) = [].
Proof.
  intros A B m k Hm Hk. rewrite fst_bind, files_read_app, Hm.
  destruct (snd m); simpl; try reflexivity. apply Hk.
Qed.

Ltac unread_stage :=
  repeat first
    [ apply unread_bind; [|intros ?]
    | match goal with
      | |- files_read (fst (match ?x with _ => _ end)) = [] => destruct x
      | |- files_read (fst (if ?x then _ else _)) = [] => destruct x
      end
    | reflexivity ].

Lemma parse_command_line_unread : forall W argv,
  files_read (fst (parse_command_line W argv)) = [].
Proof. intros W argv. unfold parse_command_line. unread_stage. Qed.

Lemma build_runner_unread : forall W vm, files_read (fst (build_runner W vm)) = [].
Proof.
  intros W vm. unfold build_runner, normalize_if, print_graph_if, call. unread_stage.
Qed.

Lemma chunk_loop_unread : forall W fuel r text w no offset,
  files_read (fst (chunk_loop W fuel r text w no offset)) = [].
Proof.
  intros W fuel. induction fuel as [|fuel IH]; intros r text w no offset.
  - reflexivity.
  - rewrite chunk_loop_unfold.
    destruct (offset <? size text); [|reflexivity].
    destruct (Z.min (size_t (offset + w)) (size text) <? offset); [reflexivity|].
    destruct (oclrunner_run W r _) as [e|[r' result]]; [reflexivity|].
    cbn [fst files_read]. rewrite files_read_app, IH, app_nil_r.
    unfold printed. destruct no; [reflexivity|].
    induction result as [|idx rest IHr]; simpl; [reflexivity|exact IHr].
Qed.

Lemma load_input_reads_once : forall W vm,
  files_read (fst (load_input W vm)) = [vm_file vm].
Proof.
  intros W vm. unfold load_input, readfile, normalize_if, call.
  destruct (fs_read W (vm_file vm)) as [content|]; simpl; [|reflexivity].
  destruct (is_empty content); simpl; [reflexivity|].
  destruct (vm_normalize_file vm); simpl; [|reflexivity].
  destruct (nfkc W (utf_to_utf32 W content)); reflexivity.
Qed.

Lemma handle_unread : forall e, files_read (handle e) = [].
Proof. intros [what|what]; reflexivity. Qed.

Lemma main_files_read : forall W fuel argv,
  files_read (fst (main W fuel argv)) = files_read (fst (main_try W fuel argv)).
Proof.
  intros W fuel argv. unfold main.
  destruct (main_try W fuel argv) as [t [c|e| |]]; simpl; try reflexivity.
  rewrite files_read_app, handle_unread. apply app_nil_r.
Qed.

(** [main] opens no file but the one named on the command line, opens it at
    most once, and only after the pattern has been compiled and the runner
    constructed. *)
Theorem file_read_only_after_runner : forall W fuel argv,
  files_read (fst (main W fuel argv)) <> [] ->
  exists t1 vm t2 (r : runner W),
    parse_command_line W argv = (t1, Done (inr vm))
    /\ build_runner W vm = (t2, Done r)
    /\ files_read (fst (main W fuel argv)) = [vm_file vm].
Proof.
  intros W fuel argv. rewrite main_files_read. unfold main_try.
  rewrite fst_bind, files_read_app, parse_command_line_unread.
  destruct (parse_command_line W argv) as [t1 [[code|vm]|e| |]] eqn:Hparse; simpl;
    try (intros H; exfalso; apply H; reflexivity).
  rewrite fst_bind, files_read_app, build_runner_unread.
  destruct (build_runner W vm) as [t2 [r|e| |]] eqn:Hbuild; simpl;
    try (intros H; exfalso; apply H; reflexivity).
  intros _. exists t1, vm, t2, r.
  split; [first [reflexivity|assumption]|].
  split; [first [reflexivity|assumption]|].
  rewrite fst_bind, files_read_app, load_input_reads_once.
  destruct (snd (load_input W vm)) as [text|e| |]; simpl; try reflexivity.
  rewrite fst_bind, files_read_app, chunk_loop_unread.
  destruct (snd (chunk_loop W fuel r text (vm_max_chunk_size vm) (vm_no_output vm) 0));
    reflexivity.
Qed.

Lemma file_read_only_after_runner_witness :
  exists t1 vm t2 (r : runner banana_world),
    parse_command_line banana_world banana_argv = (t1, Done (inr vm))
    /\ build_runner banana_world vm = (t2, Done r)
    /\ files_read (fst (main banana_world 10 banana_argv)) = [vm_file vm].
Proof.
  apply file_read_only_after_runner. by_evaluation.
Defined.
